(** * Lateral trajectory optimizer: the NLP callbacks of
      [modules/planning/lattice/trajectory_generation/lateral_trajectory_optimizer.cc]

    The C++ class [LateralTrajectoryOptimizer] implements the Ipopt [TNLP]
    callbacks of a lateral-offset smoothing problem over [N] stations.  This
    file embeds the constructor and the callbacks as Rocq functions and
    states the properties of the specification over them.

    Modelling conventions.
    - [double] is the type [R] of real numbers: arithmetic is exact, rounding
      is outside the model.
    - A [double*] or [int*] buffer is a list; [x[i]] is [load x i] and
      [buf[i] = v] is stdpp's [<[i:=v]> buf].  An access outside the buffer is
      undefined behaviour in C++; here such a load yields [0] and such a store
      leaves the buffer unchanged, and the results about a callback assume
      the buffer sizes that [get_nlp_info] reports.
    - [std::size_t] indices are natural numbers.  A subtraction on them is
      [size_sub], which wraps modulo [2^64] as the C++ does.  Sums and
      products are not reduced: with at least one station they stay far
      below [2^64], and with none the wrapped and the unwrapped index both
      lie outside every buffer.
    - An Ipopt [Index] ([int]) argument is an integer of [Z]; a size stored
      into an [int] buffer keeps its value (sizes stay below [2^31]).
    - A failing glog [CHECK] aborts the process: callbacks that contain one
      return an [outcome]. *)

From Stdlib Require Import Reals Lra Lia ZArith List.
From stdpp Require Import base list.
Import ListNotations.

Local Open Scope R_scope.

(** ** Buffers and loops *)

Definition load (buf : list R) (i : nat) : R := nth i buf 0.

Definition store {A : Type} (i : nat) (v : A) (buf : list A) : list A :=
  <[i := v]> buf.

(** [for (std::size_t i = a; i < b; ++i) body] on a state of type [S]. *)
Definition for_range {S : Type} (a b : nat) (body : nat -> S -> S) (s : S) : S :=
  fold_left (fun acc i => body i acc) (seq a (b - a)) s.

(** [for (std::size_t i = 0; i + 1 < n; ++i) body]: the indices [0 .. n-2],
    none when [n] is [0] or [1]. *)
Definition for_pairs {S : Type} (n : nat) (body : nat -> S -> S) (s : S) : S :=
  for_range 0 (Nat.pred n) body s.

(** Subtraction of [std::size_t] values, modulo [2^64]. *)
Definition size_modulus : nat := Z.to_nat (2 ^ 64).

Definition size_sub (a b : nat) : nat :=
  if (b <=? a)%nat then (a - b)%nat else (size_modulus - (b - a))%nat.

(** Result of a callback that contains glog [CHECK]s. *)
Inductive outcome (A : Type) : Type :=
| Done (a : A)
| Fatal.
Arguments Done {A} a.
Arguments Fatal {A}.

#[global] Instance outcome_ret : MRet outcome := fun A a => Done a.

#[global] Instance outcome_bind : MBind outcome := fun A B k m =>
  match m with
  | Done a => k a
  | Fatal => Fatal
  end.

(** [CHECK(b)] *)
Definition CHECK (b : bool) : outcome unit := if b then Done tt else Fatal.

(** [std::size_t(n)] for an [int] [n]: conversion modulo [2^64]. *)
Definition size_of_int (n : Z) : Z := (n mod 2 ^ 64)%Z.

(** [CHECK_EQ(std::size_t(n), k)] for an [int] [n] and a size [k]. *)
Definition CHECK_EQ_size (n : Z) (k : nat) : outcome unit :=
  CHECK (size_of_int n =? Z.of_nat k)%Z.

(** ** Collaborating classes that the source uses but does not define *)

(** Modelled from the spec: [ConstantJerkTrajectory1d], declared in
    [modules/planning/lattice/trajectory1d/constant_jerk_trajectory1d.h],
    is missing from the source tree.  The specification (section 3,
    "single-segment kinematic sample") gives its closed forms: from a start
    state [(p0, v0, a0)], a constant jerk and a segment length [param],
    [v = v0 + a0*param + 1/2*jerk*param^2] and
    [p = p0 + v0*param + 1/2*a0*param^2 + 1/6*jerk*param^3]. *)
Record ConstantJerkTrajectory1d : Type := {
  p0_ : R;
  v0_ : R;
  a0_ : R;
  jerk_ : R;
  param_ : R
}.

Definition end_velocity (t : ConstantJerkTrajectory1d) : R :=
  v0_ t + a0_ t * param_ t + / 2 * jerk_ t * (param_ t * param_ t).

Definition end_position (t : ConstantJerkTrajectory1d) : R :=
  p0_ t + v0_ t * param_ t + / 2 * a0_ t * (param_ t * param_ t)
  + / 6 * jerk_ t * (param_ t * param_ t * param_ t).

(** Modelled from the spec: [PiecewiseJerkTrajectory1d] is missing from the
    source tree.  The specification (sections 3 and 4.3) describes it as the
    frozen initial state [(d0, d0', d0'')] plus an append-only ordered
    sequence of segments [(jerk, delta_s)]. *)
Record PiecewiseJerkTrajectory1d : Type := {
  initial_state : R * R * R;
  segments : list (R * R)
}.

Definition PiecewiseJerkTrajectory1d_new (p v a : R) : PiecewiseJerkTrajectory1d :=
  {| initial_state := (p, v, a); segments := [] |}.

Definition AppendSegment (jerk param : R) (t : PiecewiseJerkTrajectory1d)
  : PiecewiseJerkTrajectory1d :=
  {| initial_state := initial_state t;
     segments := segments t ++ [(jerk, param)] |}.

(** [Ipopt::SolverReturn], the terminal status handed to
    [finalize_solution]; [SUCCESS] is the converged status. *)
Inductive SolverReturn : Type :=
| SUCCESS
| MAXITER_EXCEEDED
| CPUTIME_EXCEEDED
| STOP_AT_TINY_STEP
| STOP_AT_ACCEPTABLE_POINT
| LOCAL_INFEASIBILITY
| USER_REQUESTED_STOP
| FEASIBLE_POINT_FOUND
| DIVERGING_ITERATES
| RESTORATION_FAILURE
| ERROR_IN_STEP_COMPUTATION
| INVALID_NUMBER_DETECTED
| TOO_FEW_DEGREES_OF_FREEDOM
| INVALID_OPTION
| OUT_OF_MEMORY
| INTERNAL_ERROR
| UNASSIGNED.

(** ** The optimizer object *)

Record LateralTrajectoryOptimizer : Type := {
  num_of_points_ : nat;
  num_of_variables_ : nat;
  delta_s_ : R;
  d_bounds_ : list (R * R);
  w_d_ : R;
  w_d_prime_ : R;
  w_d_pprime_ : R;
  w_d_obs_ : R;
  d_init_ : R;
  d_prime_init_ : R;
  d_pprime_init_ : R;
  d_ppprime_max_ : R;
  nnz_jac_g_ : nat;
  opt_piecewise_trajectory_ : PiecewiseJerkTrajectory1d
}.

(** [d_bounds_[i]] *)
Definition d_bound (this : LateralTrajectoryOptimizer) (i : nat) : R * R :=
  nth i (d_bounds_ this) (0, 0).

(** The constructor (source lines 31-50).  Its member initializer list
    builds [opt_piecewise_trajectory_] from the three initial-state
    arguments, and its body assigns [num_of_points_], [num_of_variables_],
    [delta_s_], [d_bounds_] and the four weights.  It assigns none of
    [d_init_], [d_prime_init_], [d_pprime_init_], [d_ppprime_max_] and
    [nnz_jac_g_]: these keep what they hold when the body starts, which the
    class declaration (a header outside the source tree) decides.  [raw] is
    the object in that state; only the five members just named are read
    from it. *)
Definition init_members (raw : LateralTrajectoryOptimizer)
    (d_init d_prime_init d_pprime_init delta_s : R)
    (d_bounds : list (R * R)) : LateralTrajectoryOptimizer :=
  {| num_of_points_ := length d_bounds;
     num_of_variables_ := 3 * length d_bounds;
     delta_s_ := delta_s;
     d_bounds_ := d_bounds;
     w_d_ := 1;
     w_d_prime_ := 1;
     w_d_pprime_ := 1;
     w_d_obs_ := 1;
     d_init_ := d_init_ raw;
     d_prime_init_ := d_prime_init_ raw;
     d_pprime_init_ := d_pprime_init_ raw;
     d_ppprime_max_ := d_ppprime_max_ raw;
     nnz_jac_g_ := nnz_jac_g_ raw;
     opt_piecewise_trajectory_ :=
       PiecewiseJerkTrajectory1d_new d_init d_prime_init d_pprime_init |}.

(** The constructor as an operation that may fail: its body contains no
    [CHECK] and no [throw], so it always completes. *)
Definition construct (raw : LateralTrajectoryOptimizer)
    (d_init d_prime_init d_pprime_init delta_s : R)
    (d_bounds : list (R * R)) : outcome LateralTrajectoryOptimizer :=
  Done (init_members raw d_init d_prime_init d_pprime_init delta_s d_bounds).

(** ** The callbacks *)

Section Callbacks.

Variable this : LateralTrajectoryOptimizer.

Local Abbreviation N := (num_of_points_ this).

(** [IndexStyleEnum] of Ipopt. *)
Inductive IndexStyleEnum : Type := C_STYLE | FORTRAN_STYLE.

Record nlp_info : Type := {
  info_n : Z;
  info_m : Z;
  info_nnz_jac_g : Z;
  info_nnz_h_lag : Z;
  info_index_style : IndexStyleEnum
}.

(** [get_nlp_info] (lines 52-66).  The reference parameter [nnz_jac_g] is
    never assigned: it comes back as it went in. *)
Definition get_nlp_info (nnz_jac_g : Z) : nlp_info * bool :=
  let n := Z.of_nat (N * 3) in
  let m := Z.of_nat (N * 3) in
  let nnz_h_lag := n in
  ({| info_n := n; info_m := m; info_nnz_jac_g := nnz_jac_g;
      info_nnz_h_lag := nnz_h_lag; info_index_style := C_STYLE |}, true).

(** The four output buffers of [get_bounds_info]. *)
Record bounds : Type := {
  x_l : list R;
  x_u : list R;
  g_l : list R;
  g_u : list R
}.

Definition set_x_l (i : nat) (v : R) (b : bounds) : bounds :=
  {| x_l := store i v (x_l b); x_u := x_u b; g_l := g_l b; g_u := g_u b |}.
Definition set_x_u (i : nat) (v : R) (b : bounds) : bounds :=
  {| x_l := x_l b; x_u := store i v (x_u b); g_l := g_l b; g_u := g_u b |}.
Definition set_g_l (i : nat) (v : R) (b : bounds) : bounds :=
  {| x_l := x_l b; x_u := x_u b; g_l := store i v (g_l b); g_u := g_u b |}.
Definition set_g_u (i : nat) (v : R) (b : bounds) : bounds :=
  {| x_l := x_l b; x_u := x_u b; g_l := g_l b; g_u := store i v (g_u b) |}.

(** [get_bounds_info] (lines 68-125). *)
Definition get_bounds_info (n : Z) (m : Z) (b : bounds) : bounds * bool :=
  let LARGE_VALUE := 10 in
  (* d bounds *)
  let b := for_range 0 N (fun i b =>
             let b := set_x_l i (fst (d_bound this i)) b in
             set_x_u i (snd (d_bound this i)) b) b in
  (* d_prime bounds *)
  let offset := N in
  let b := for_range 0 N (fun i b =>
             let b := set_x_l (offset + i) (- LARGE_VALUE) b in
             set_x_u (offset + i) LARGE_VALUE b) b in
  (* d_pprime bounds *)
  let offset := (2 * N)%nat in
  let b := for_range 0 N (fun i b =>
             let b := set_x_l (offset + i) (- LARGE_VALUE) b in
             set_x_u (offset + i) LARGE_VALUE b) b in
  (* jerk bounds *)
  let b := for_pairs N (fun i b =>
             let b := set_g_l i (- d_ppprime_max_ this * delta_s_ this) b in
             set_g_u i (d_ppprime_max_ this * delta_s_ this) b) b in
  (* velocity increment *)
  let offset := size_sub N 1 in
  let b := for_pairs N (fun i b =>
             let b := set_g_u (offset + i) 0 b in
             set_g_l (offset + i) 0 b) b in
  (* position increment *)
  let offset := (2 * size_sub N 1)%nat in
  let b := for_pairs N (fun i b =>
             let b := set_g_u (offset + i) 0 b in
             set_g_l (offset + i) 0 b) b in
  let offset := (3 * size_sub N 1)%nat in
  (* d_init *)
  let b := set_g_u offset 0 b in
  let b := set_g_l offset 0 b in
  (* d_prime_init *)
  let b := set_g_u (offset + 1) 0 b in
  let b := set_g_l (offset + 1) 0 b in
  (* d_pprime_init *)
  let b := set_g_u (offset + 2) 0 b in
  let b := set_g_l (offset + 2) 0 b in
  (b, true).

(** The buffers [get_starting_point] may write: [x], [z_L], [z_U] and
    [lambda]. *)
Record start_buffers : Type := {
  start_x : list R;
  start_z_L : list R;
  start_z_U : list R;
  start_lambda : list R
}.

Definition set_start_x (i : nat) (v : R) (s : start_buffers) : start_buffers :=
  {| start_x := store i v (start_x s); start_z_L := start_z_L s;
     start_z_U := start_z_U s; start_lambda := start_lambda s |}.

(** [get_starting_point] (lines 127-146).  Note the returned [false]. *)
Definition get_starting_point (n : Z) (init_x : bool) (init_z : bool)
    (m : Z) (init_lambda : bool) (s : start_buffers)
  : outcome (start_buffers * bool) :=
  CHECK_EQ_size n (N * 3);;
  CHECK (eqb init_x true);;
  CHECK (eqb init_z false);;
  CHECK (eqb init_lambda false);;
  let s := for_range 0 N (fun i s =>
             let s := set_start_x i 0 s in
             let s := set_start_x (N + i) 0 s in
             set_start_x (N + N + i) 0 s) s in
  let s := set_start_x 0 (d_init_ this) s in
  let s := set_start_x N (d_prime_init_ this) s in
  let s := set_start_x (N + N) (d_pprime_init_ this) s in
  mret (s, false).

(** [eval_f] (lines 148-164); the result is the final [obj_value]. *)
Definition eval_f (n : Z) (x : list R) (new_x : bool) : R * bool :=
  let obj_value := 0 in
  let offset_prime := N in
  let offset_pprime := (2 * N)%nat in
  let obj_value := for_range 0 N (fun i obj_value =>
      let obj_value := obj_value + load x i * load x i * w_d_ this in
      let obj_value := obj_value
        + load x (offset_prime + i) * load x (offset_prime + i)
          * w_d_prime_ this in
      let obj_value := obj_value
        + load x (offset_pprime + i) * load x (offset_pprime + i)
          * w_d_pprime_ this in
      let dist := load x i
        - (fst (d_bound this i) + snd (d_bound this i)) * 0.5 in
      obj_value + dist * dist * w_d_obs_ this) obj_value in
  (obj_value, true).

(** [std::fill(buf, buf + k, v)] *)
Definition fill {A : Type} (k : nat) (v : A) (buf : list A) : list A :=
  for_range 0 k (fun i buf => store i v buf) buf.

(** [eval_grad_f] (lines 166-183). *)
Definition eval_grad_f (n : Z) (x : list R) (new_x : bool) (grad_f : list R)
  : list R * bool :=
  let grad_f := fill (Z.to_nat n) 0 grad_f in
  let offset_prime := N in
  let offset_pprime := (2 * N)%nat in
  let grad_f := for_range 0 N (fun i grad_f =>
      let obs_center := (fst (d_bound this i) + snd (d_bound this i)) * 0.5 in
      let grad_f := store i
        (2 * load x i * w_d_ this + 2 * (load x i - obs_center) * w_d_obs_ this)
        grad_f in
      let grad_f := store (offset_prime + i)
        (2 * load x (offset_prime + i) * w_d_prime_ this) grad_f in
      store (offset_pprime + i)
        (2 * load x (offset_pprime + i) * w_d_pprime_ this) grad_f) grad_f in
  (grad_f, true).

(** The body of the second loop of [eval_g] (lines 196-208) for one pair of
    adjacent stations: the velocity and the position residual. *)
Definition continuity_residuals (delta_s p0 v0 a0 p1 v1 a1 : R) : R * R :=
  let j := (a1 - a0) / delta_s in
  let t := {| p0_ := p0; v0_ := v0; a0_ := a0; jerk_ := j;
              param_ := delta_s |} in
  (end_velocity t - v1, end_position t - p1).

(** [eval_g] (lines 185-216). *)
Definition eval_g (n : Z) (x : list R) (new_x : bool) (m : Z) (g : list R)
  : list R * bool :=
  let offset_prime := N in
  let offset_pprime := (2 * N)%nat in
  let g := for_pairs N (fun i g =>
      store i (load x (offset_pprime + i + 1) - load x (offset_pprime + i)) g)
      g in
  let g := for_pairs N (fun i g =>
      let p0 := load x i in
      let v0 := load x (offset_prime + i) in
      let a0 := load x (offset_pprime + i) in
      let p1 := load x (i + 1) in
      let v1 := load x (offset_prime + i + 1) in
      let a1 := load x (offset_pprime + i + 1) in
      let r := continuity_residuals (delta_s_ this) p0 v0 a0 p1 v1 a1 in
      let g := store (size_sub N 1 + i) (fst r) g in
      store (2 * size_sub N 1 + i) (snd r) g) g in
  let offset := (3 * size_sub N 1)%nat in
  let g := store offset (load x 0 - d_init_ this) g in
  let g := store (offset + 1) (load x offset_prime - d_prime_init_ this) g in
  let g := store (offset + 2) (load x offset_pprime - d_pprime_init_ this) g in
  (g, true).

(** The cursor of the structure phase of [eval_jac_g]: the two counters and
    the two index buffers. *)
Record jac_cursor : Type := {
  nz_index : nat;
  constraint_index : nat;
  iRow : list Z;
  jCol : list Z
}.

(** [iRow[nz_index] = constraint_index; jCol[nz_index] = col; ++nz_index;] *)
Definition put_entry (col : nat) (c : jac_cursor) : jac_cursor :=
  {| nz_index := S (nz_index c);
     constraint_index := constraint_index c;
     iRow := store (nz_index c) (Z.of_nat (constraint_index c)) (iRow c);
     jCol := store (nz_index c) (Z.of_nat col) (jCol c) |}.

(** [++constraint_index;] *)
Definition next_constraint (c : jac_cursor) : jac_cursor :=
  {| nz_index := nz_index c;
     constraint_index := S (constraint_index c);
     iRow := iRow c;
     jCol := jCol c |}.

(** [values[nz_index] = v; ++nz_index;] on the pair of the counter and the
    value buffer. *)
Definition put_value (v : R) (c : nat * list R) : nat * list R :=
  (S (fst c), store (fst c) v (snd c)).

(** The structure phase of [eval_jac_g] (lines 225-310), up to the
    assignment of [nnz_jac_g_]. *)
Definition jac_structure (iRow0 jCol0 : list Z) : jac_cursor :=
  let c := {| nz_index := 0; constraint_index := 0;
              iRow := iRow0; jCol := jCol0 |} in
  (* acc constraint *)
  let c := for_pairs N (fun variable_index c =>
      let c := put_entry (2 * N + variable_index) c in
      let c := put_entry (2 * N + variable_index + 1) c in
      next_constraint c) c in
  (* velocity constraint *)
  let c := for_pairs N (fun variable_index c =>
      let c := put_entry (N + variable_index) c in
      let c := put_entry (N + variable_index + 1) c in
      let c := put_entry (2 * N + variable_index) c in
      let c := put_entry (2 * N + variable_index + 1) c in
      next_constraint c) c in
  (* state constraint *)
  let c := for_pairs N (fun variable_index c =>
      let c := put_entry variable_index c in
      let c := put_entry (variable_index + 1) c in
      let c := put_entry (N + variable_index) c in
      let c := put_entry (2 * N + variable_index) c in
      let c := put_entry (2 * N + variable_index + 1) c in
      next_constraint c) c in
  (* initial state constraint: constraint_index is not advanced *)
  let c := put_entry 0 c in
  let c := put_entry N c in
  let c := put_entry (2 * N) c in
  c.

(** The value phase of [eval_jac_g] (lines 316-374), up to the final
    [CHECK_EQ]: the last counter and the value buffer. *)
Definition jac_values (x : list R) (new_x : bool) (values : list R)
  : nat * list R :=
  let values := fill (nnz_jac_g_ this) 0 values in
  let c := (0%nat, values) in
  (* fill acc constraint *)
  let c := for_pairs N (fun variable_index c =>
      let c := put_value 1 c in
      put_value (-1) c) c in
  (* fill velocity constraint *)
  let c := for_pairs N (fun variable_index c =>
      let c := put_value 1 c in
      let c := put_value (-1) c in
      let c := put_value (0.5 * delta_s_ this) c in
      put_value (0.5 * delta_s_ this) c) c in
  (* state constraint *)
  let c := for_pairs N (fun variable_index c =>
      let c := put_value 1 c in
      let c := put_value (-1) c in
      let c := put_value (delta_s_ this) c in
      let c := put_value (delta_s_ this * delta_s_ this / 3) c in
      put_value (delta_s_ this * delta_s_ this / 6) c) c in
  (* initial state constraint *)
  let c := for_range 0 3 (fun order c => put_value 1 c) c in
  c.

Definition set_nnz_jac_g (k : nat) : LateralTrajectoryOptimizer :=
  {| num_of_points_ := num_of_points_ this;
     num_of_variables_ := num_of_variables_ this;
     delta_s_ := delta_s_ this;
     d_bounds_ := d_bounds_ this;
     w_d_ := w_d_ this;
     w_d_prime_ := w_d_prime_ this;
     w_d_pprime_ := w_d_pprime_ this;
     w_d_obs_ := w_d_obs_ this;
     d_init_ := d_init_ this;
     d_prime_init_ := d_prime_init_ this;
     d_pprime_init_ := d_pprime_init_ this;
     d_ppprime_max_ := d_ppprime_max_ this;
     nnz_jac_g_ := k;
     opt_piecewise_trajectory_ := opt_piecewise_trajectory_ this |}.

(** What [eval_jac_g] leaves behind: the object (its [nnz_jac_g_] may have
    changed), the index buffers, the value buffer when one was passed, and
    the returned flag. *)
Record jac_result : Type := {
  jac_this : LateralTrajectoryOptimizer;
  jac_iRow : list Z;
  jac_jCol : list Z;
  jac_vals : option (list R);
  jac_ret : bool
}.

(** [eval_jac_g] (lines 218-379).  [values] is [None] for the null pointer
    of the structure phase. *)
Definition eval_jac_g (n : Z) (x : list R) (new_x : bool) (m : Z)
    (nele_jac : Z) (iRow0 jCol0 : list Z) (values : option (list R))
  : outcome jac_result :=
  CHECK_EQ_size n (N * 3);;
  CHECK_EQ_size m (N * 3);;
  match values with
  | None =>
      let c := jac_structure iRow0 jCol0 in
      mret {| jac_this := set_nnz_jac_g (nz_index c);
              jac_iRow := iRow c; jac_jCol := jCol c;
              jac_vals := None; jac_ret := true |}
  | Some values =>
      let c := jac_values x new_x values in
      CHECK (fst c =? nnz_jac_g_ this)%nat;;
      mret {| jac_this := this;
              jac_iRow := iRow0; jac_jCol := jCol0;
              jac_vals := Some (snd c); jac_ret := true |}
  end.

Record hess_result : Type := {
  hess_iRow : list Z;
  hess_jCol : list Z;
  hess_vals : option (list R);
  hess_ret : bool
}.

(** [eval_h] (lines 381-399). *)
Definition eval_h (n : Z) (x : list R) (new_x : bool) (obj_factor : R)
    (m : Z) (lambda : list R) (new_lambda : bool) (nele_hess : Z)
    (iRow0 jCol0 : list Z) (values : option (list R)) : hess_result :=
  match values with
  | None =>
      let rc := for_range 0 (3 * N) (fun i rc =>
          let iRow := store i (Z.of_nat i) (fst rc) in
          let jCol := store i (Z.of_nat i) (snd rc) in
          (iRow, jCol)) (iRow0, jCol0) in
      {| hess_iRow := fst rc; hess_jCol := snd rc;
         hess_vals := None; hess_ret := true |}
  | Some values =>
      let values := for_range 0 N (fun i values => store i 4 values) values in
      let values := for_range N (3 * N) (fun i values => store i 2 values)
                      values in
      {| hess_iRow := iRow0; hess_jCol := jCol0;
         hess_vals := Some values; hess_ret := true |}
  end.

End Callbacks.

Definition set_opt_piecewise_trajectory (t : PiecewiseJerkTrajectory1d)
    (this : LateralTrajectoryOptimizer) : LateralTrajectoryOptimizer :=
  {| num_of_points_ := num_of_points_ this;
     num_of_variables_ := num_of_variables_ this;
     delta_s_ := delta_s_ this;
     d_bounds_ := d_bounds_ this;
     w_d_ := w_d_ this;
     w_d_prime_ := w_d_prime_ this;
     w_d_pprime_ := w_d_pprime_ this;
     w_d_obs_ := w_d_obs_ this;
     d_init_ := d_init_ this;
     d_prime_init_ := d_prime_init_ this;
     d_pprime_init_ := d_pprime_init_ this;
     d_ppprime_max_ := d_ppprime_max_ this;
     nnz_jac_g_ := nnz_jac_g_ this;
     opt_piecewise_trajectory_ := t |}.

(** [finalize_solution] (lines 401-412).  The Ipopt handles [ip_data] and
    [ip_cq] are left out; no argument other than [x] is read. *)
Definition finalize_solution (this : LateralTrajectoryOptimizer)
    (status : SolverReturn) (n : Z) (x z_L z_U : list R) (m : Z)
    (g lambda : list R) (obj_value : R) : LateralTrajectoryOptimizer :=
  let offset := (num_of_points_ this * 2)%nat in
  for_range 1 (num_of_points_ this) (fun i this =>
      let j := (load x offset - load x (size_sub offset 1)) / delta_s_ this in
      set_opt_piecewise_trajectory
        (AppendSegment j (delta_s_ this) (opt_piecewise_trajectory_ this))
        this) this.

(** [GetOptimalTrajectory] (lines 414-417). *)
Definition GetOptimalTrajectory (this : LateralTrajectoryOptimizer)
  : PiecewiseJerkTrajectory1d :=
  opt_piecewise_trajectory_ this.

(** ** Auxiliary definitions for the proofs

    A loop body that only stores into one buffer is the replay of the list
    of its writes, in order; [stores [(i1, v1); (i2, v2)] buf] unfolds to
    [store i2 v2 (store i1 v1 buf)]. *)
Definition stores {A : Type} (ws : list (nat * A)) (buf : list A) : list A :=
  fold_left (fun b w => store (fst w) (snd w) b) ws buf.

(** The write log of iteration [i] of the first and of the second loop of
    [eval_g], and the buffer after each loop, for at least one station
    (where [size_sub N 1] is [N - 1]). *)
Definition eval_g_log1 (this : LateralTrajectoryOptimizer) (x : list R)
    (i : nat) : list (nat * R) :=
  [(i, load x (2 * num_of_points_ this + i + 1)
       - load x (2 * num_of_points_ this + i))].

Definition eval_g_log2 (this : LateralTrajectoryOptimizer) (x : list R)
    (i : nat) : list (nat * R) :=
  let N := num_of_points_ this in
  let r := continuity_residuals (delta_s_ this)
             (load x i) (load x (N + i)) (load x (2 * N + i))
             (load x (i + 1)) (load x (N + i + 1)) (load x (2 * N + i + 1)) in
  [((N - 1 + i)%nat, fst r); ((2 * (N - 1) + i)%nat, snd r)].

Definition eval_g_after_loop1 (this : LateralTrajectoryOptimizer)
    (x g : list R) : list R :=
  for_pairs (num_of_points_ this)
    (fun i buf => stores (eval_g_log1 this x i) buf) g.

Definition eval_g_after_loop2 (this : LateralTrajectoryOptimizer)
    (x g : list R) : list R :=
  for_pairs (num_of_points_ this)
    (fun i buf => stores (eval_g_log2 this x i) buf)
    (eval_g_after_loop1 this x g).

(** The buffers of [get_starting_point] after the zeroing loop and the
    three final stores. *)
Definition starting_point_buffers (this : LateralTrajectoryOptimizer)
    (s : start_buffers) : start_buffers :=
  let N := num_of_points_ this in
  set_start_x (N + N) (d_pprime_init_ this)
    (set_start_x N (d_prime_init_ this)
       (set_start_x 0 (d_init_ this)
          (for_range 0 N (fun i s =>
             set_start_x (N + N + i) 0
               (set_start_x (N + i) 0 (set_start_x i 0 s))) s))).

(** [c'] extends [c]: the counter has not moved back and the entries below
    the counter of [c] are those of [c]. *)
Definition cursor_extends (c c' : jac_cursor) : Prop :=
  (nz_index c <= nz_index c')%nat
  /\ length (iRow c') = length (iRow c)
  /\ length (jCol c') = length (jCol c)
  /\ forall j, (j < nz_index c)%nat ->
       nth j (iRow c') 0%Z = nth j (iRow c) 0%Z
       /\ nth j (jCol c') 0%Z = nth j (jCol c) 0%Z.

Definition values_extend (c c' : nat * list R) : Prop :=
  (fst c <= fst c')%nat
  /\ length (snd c') = length (snd c)
  /\ forall j, (j < fst c)%nat -> load (snd c') j = load (snd c) j.

(** ** Definitions that follow the words of the specification *)

(** Sum of [f 0 .. f (n-1)]. *)
Fixpoint sum_upto (n : nat) (f : nat -> R) : R :=
  match n with
  | O => 0
  | S k => sum_upto k f + f k
  end.

(** Midpoint of corridor [i]. *)
Definition midpoint (this : LateralTrajectoryOptimizer) (i : nat) : R :=
  (fst (d_bound this i) + snd (d_bound this i)) / 2.

(** The three blocks of the decision vector. *)
Definition d_of (this : LateralTrajectoryOptimizer) (x : list R) (i : nat) : R :=
  load x i.
Definition d_prime_of (this : LateralTrajectoryOptimizer) (x : list R) (i : nat)
  : R := load x (num_of_points_ this + i).
Definition d_pprime_of (this : LateralTrajectoryOptimizer) (x : list R)
    (i : nat) : R := load x (2 * num_of_points_ this + i).

(** The objective as the specification writes it (section 4.1), with the
    four weights equal to one. *)
Definition objective_spec (this : LateralTrajectoryOptimizer) (x : list R) : R :=
  sum_upto (num_of_points_ this) (fun i =>
    d_of this x i * d_of this x i
    + d_prime_of this x i * d_prime_of this x i
    + d_pprime_of this x i * d_pprime_of this x i
    + (d_of this x i - midpoint this i) * (d_of this x i - midpoint this i)).

(** Malformed construction input (section 7, construction errors). *)
Definition malformed (delta_s : R) (d_bounds : list (R * R)) : Prop :=
  (length d_bounds < 2)%nat \/ delta_s <= 0
  \/ Exists (fun p => fst p > snd p) d_bounds.

(** The segments that the specification has [finalize] append
    (section 4.1): for each adjacent station pair [(i, i+1)], in station
    order, the jerk [(d''_{i+1} - d''_i) / delta_s] with the step length. *)
Definition finalize_spec_segments (this : LateralTrajectoryOptimizer)
    (x : list R) : list (R * R) :=
  map (fun i =>
         ((d_pprime_of this x (i + 1) - d_pprime_of this x i) / delta_s_ this,
          delta_s_ this))
      (seq 0 (num_of_points_ this - 1)).

(** The one segment that [finalize_solution] computes, whatever the
    iteration: it reads [x[2N]] and [x[2N - 1]]. *)
Definition finalize_code_segment (this : LateralTrajectoryOptimizer)
    (x : list R) : R * R :=
  ((load x (num_of_points_ this * 2)
    - load x (size_sub (num_of_points_ this * 2) 1)) / delta_s_ this,
   delta_s_ this).

(** The initial guess of the specification (section 4.1) for [N] stations
    and the initial state [(d0, d0', d0'')]: zero except at the indices [0],
    [N] and [2N]. *)
Definition initial_guess_spec (N : nat) (d0 d0' d0'' : R) : list R :=
  store (2 * N) d0'' (store N d0' (store 0 d0 (repeat 0 (3 * N)))).

(** The coefficient at position [(r, c)] of the sparse matrix whose entries
    are the triplets [(rows[k], cols[k], vals[k])]: Ipopt adds up the entries
    that share a position. *)
Fixpoint coefficient (rows cols : list Z) (vals : list R) (r c : Z) : R :=
  match rows, cols, vals with
  | i :: rows, j :: cols, v :: vals =>
      (if ((i =? r)%Z && (j =? c)%Z)%bool then v else 0)
      + coefficient rows cols vals r c
  | _, _, _ => 0
  end.

(** [D] is the partial derivative, at [x] and with respect to [x[c]], of
    row [r] of the residuals that [eval_g] writes. *)
Definition eval_g_partial (this : LateralTrajectoryOptimizer) (n m : Z)
    (g x : list R) (r c : nat) (D : R) : Prop :=
  derivable_pt_lim
    (fun t => load (fst (eval_g this n (store c t x) true m g)) r)
    (load x c) D.

(** Row [j] of the residual vector in closed form: the difference of
    second-derivative samples on block 1, the velocity and the position
    residual of a station pair on blocks 2 and 3, and the three
    initial-state residuals. *)
Definition residual_row (this : LateralTrajectoryOptimizer) (x : list R)
    (j : nat) : R :=
  let N := num_of_points_ this in
  let pair_residuals i :=
    continuity_residuals (delta_s_ this)
      (load x i) (load x (N + i)) (load x (2 * N + i))
      (load x (i + 1)) (load x (N + i + 1)) (load x (2 * N + i + 1)) in
  if decide (j < N - 1)%nat then
    load x (2 * N + j + 1) - load x (2 * N + j)
  else if decide (j < 2 * (N - 1))%nat then
    fst (pair_residuals (j - (N - 1))%nat)
  else if decide (j < 3 * (N - 1))%nat then
    snd (pair_residuals (j - 2 * (N - 1))%nat)
  else if decide (j = (3 * (N - 1))%nat) then load x 0 - d_init_ this
  else if decide (j = (3 * (N - 1) + 1)%nat) then
    load x N - d_prime_init_ this
  else load x (2 * N) - d_pprime_init_ this.

(** The jerk that [eval_g] implies for the station pair [(i, i+1)]. *)
Definition implied_jerk (this : LateralTrajectoryOptimizer) (x : list R)
    (i : nat) : R :=
  (load x (2 * num_of_points_ this + i + 1)
   - load x (2 * num_of_points_ this + i)) / delta_s_ this.

(** What one iteration of the loop of [eval_f] adds to [obj_value]: the
    cost of station [i] under the four weights. *)
Definition station_cost (this : LateralTrajectoryOptimizer) (x : list R)
    (i : nat) : R :=
  let N := num_of_points_ this in
  let dist := load x i - (fst (d_bound this i) + snd (d_bound this i)) * 0.5 in
  load x i * load x i * w_d_ this
  + load x (N + i) * load x (N + i) * w_d_prime_ this
  + load x (2 * N + i) * load x (2 * N + i) * w_d_pprime_ this
  + dist * dist * w_d_obs_ this.

(** Entry [j] of the gradient in closed form. *)
Definition gradient_entry (this : LateralTrajectoryOptimizer) (x : list R)
    (j : nat) : R :=
  let N := num_of_points_ this in
  if decide (j < N)%nat then
    2 * load x j * w_d_ this
    + 2 * (load x j - (fst (d_bound this j) + snd (d_bound this j)) * 0.5)
      * w_d_obs_ this
  else if decide (j < 2 * N)%nat then 2 * load x j * w_d_prime_ this
  else 2 * load x j * w_d_pprime_ this.

(** [D] is the partial derivative of the objective that [eval_f] returns,
    at [x] and with respect to [x[c]]. *)
Definition eval_f_partial (this : LateralTrajectoryOptimizer) (n : Z)
    (x : list R) (c : nat) (D : R) : Prop :=
  derivable_pt_lim
    (fun t => fst (eval_f this n (store c t x) true)) (load x c) D.

(** [D] is the partial derivative of entry [r] of the gradient that
    [eval_grad_f] writes, at [x] and with respect to [x[c]]. *)
Definition eval_grad_f_partial (this : LateralTrajectoryOptimizer) (n : Z)
    (grad_f x : list R) (r c : nat) (D : R) : Prop :=
  derivable_pt_lim
    (fun t => load (fst (eval_grad_f this n (store c t x) true grad_f)) r)
    (load x c) D.

(** Several [put_entry], and several [put_value], in a row:
    [put_entries [c1; c2] c] unfolds to [put_entry c2 (put_entry c1 c)]. *)
Definition put_entries (cols : list nat) (c : jac_cursor) : jac_cursor :=
  fold_left (fun c col => put_entry col c) cols c.

Definition put_values (vs : list R) (c : nat * list R) : nat * list R :=
  fold_left (fun c v => put_value v c) vs c.

(** The triplets of the constraint Jacobian in closed form, for [N]
    stations: with [q = N - 1] station pairs, two entries per pair for
    block 1, four for block 2, five for block 3, and three entries for the
    initial state, all three in row [3q]. *)
Definition jac_rows (N : nat) : list nat :=
  let q := (N - 1)%nat in
  flat_map (fun i => [i; i]) (seq 0 q)
  ++ flat_map (fun i => repeat (q + i)%nat 4) (seq 0 q)
  ++ flat_map (fun i => repeat (2 * q + i)%nat 5) (seq 0 q)
  ++ repeat (3 * q)%nat 3.

Definition jac_cols (N : nat) : list nat :=
  let q := (N - 1)%nat in
  flat_map (fun i => [2 * N + i; 2 * N + i + 1]%nat) (seq 0 q)
  ++ flat_map (fun i => [N + i; N + i + 1; 2 * N + i; 2 * N + i + 1]%nat)
       (seq 0 q)
  ++ flat_map (fun i => [i; i + 1; N + i; 2 * N + i; 2 * N + i + 1]%nat)
       (seq 0 q)
  ++ [0; N; 2 * N]%nat.

Definition jac_coeffs (this : LateralTrajectoryOptimizer) : list R :=
  let q := (num_of_points_ this - 1)%nat in
  let ds := delta_s_ this in
  flat_map (fun _ => [1; -1]) (seq 0 q)
  ++ flat_map (fun _ => [1; -1; 0.5 * ds; 0.5 * ds]) (seq 0 q)
  ++ flat_map (fun _ => [1; -1; ds; ds * ds / 3; ds * ds / 6]) (seq 0 q)
  ++ [1; 1; 1].

(** Number of triplets. *)
Definition jac_count (N : nat) : nat := (11 * (N - 1) + 3)%nat.

(** The coefficient at [(r, c)] of a triplet list with natural-number
    indices. *)
Fixpoint triplet_sum (rows cols : list nat) (vals : list R) (r c : nat) : R :=
  match rows, cols, vals with
  | i :: rows, j :: cols, v :: vals =>
      (if decide (i = r /\ j = c) then v else 0)
      + triplet_sum rows cols vals r c
  | _, _, _ => 0
  end.

(** The coefficients of one row of each block, as functions of the column
    [c]: row [i] of blocks 1, 2 and 3 belongs to the station pair
    [(i, i+1)]. *)
Definition block1_coefficient (N i c : nat) : R :=
  (if decide (c = (2 * N + i)%nat) then 1 else 0)
  + (if decide (c = (2 * N + i + 1)%nat) then - 1 else 0).

Definition block2_coefficient (N : nat) (ds : R) (i c : nat) : R :=
  (if decide (c = (N + i)%nat) then 1 else 0)
  + (if decide (c = (N + i + 1)%nat) then - 1 else 0)
  + (if decide (c = (2 * N + i)%nat) then 0.5 * ds else 0)
  + (if decide (c = (2 * N + i + 1)%nat) then 0.5 * ds else 0).

Definition block3_coefficient (N : nat) (ds : R) (i c : nat) : R :=
  (if decide (c = i) then 1 else 0)
  + (if decide (c = (i + 1)%nat) then - 1 else 0)
  + (if decide (c = (N + i)%nat) then ds else 0)
  + (if decide (c = (2 * N + i)%nat) then ds * ds / 3 else 0)
  + (if decide (c = (2 * N + i + 1)%nat) then ds * ds / 6 else 0).

Definition block4_coefficient (N c : nat) : R :=
  (if decide (c = 0%nat) then 1 else 0)
  + (if decide (c = N) then 1 else 0)
  + (if decide (c = (2 * N)%nat) then 1 else 0).

(** The coefficient of the Jacobian that [eval_jac_g] produces, at row [r]
    and column [c]. *)
Definition jac_coefficient (this : LateralTrajectoryOptimizer) (r c : nat)
  : R :=
  let N := num_of_points_ this in
  let q := (N - 1)%nat in
  if decide (r < q)%nat then block1_coefficient N r c
  else if decide (r < 2 * q)%nat then
    block2_coefficient N (delta_s_ this) (r - q) c
  else if decide (r < 3 * q)%nat then
    block3_coefficient N (delta_s_ this) (r - 2 * q) c
  else if decide (r = (3 * q)%nat) then block4_coefficient N c
  else 0.

(** The partial derivative of row [r] of the residuals of [eval_g] with
    respect to [x[c]]. *)
Definition residual_derivative (this : LateralTrajectoryOptimizer) (r c : nat)
  : R :=
  let N := num_of_points_ this in
  let q := (N - 1)%nat in
  if decide (r < q)%nat then - block1_coefficient N r c
  else if decide (r < 2 * q)%nat then
    block2_coefficient N (delta_s_ this) (r - q) c
  else if decide (r < 3 * q)%nat then
    block3_coefficient N (delta_s_ this) (r - 2 * q) c
  else if decide (r = (3 * q)%nat) then
    (if decide (c = 0%nat) then 1 else 0)
  else if decide (r = (3 * q + 1)%nat) then
    (if decide (c = N) then 1 else 0)
  else (if decide (c = (2 * N)%nat) then 1 else 0).

(** ** Concrete objects used in examples *)

(** An object whose members are all zero, standing for the state before a
    constructor body runs. *)
Definition zero_object : LateralTrajectoryOptimizer :=
  {| num_of_points_ := 0;
     num_of_variables_ := 0;
     delta_s_ := 0;
     d_bounds_ := [];
     w_d_ := 0;
     w_d_prime_ := 0;
     w_d_pprime_ := 0;
     w_d_obs_ := 0;
     d_init_ := 0;
     d_prime_init_ := 0;
     d_pprime_init_ := 0;
     d_ppprime_max_ := 0;
     nnz_jac_g_ := 0;
     opt_piecewise_trajectory_ := PiecewiseJerkTrajectory1d_new 0 0 0 |}.

(** Two stations one unit apart, corridors [[-1, 1]], initial state
    [(1, 0, 0)]. *)
Definition two_stations : LateralTrajectoryOptimizer :=
  init_members zero_object 1 0 0 1 [(-1, 1); (-1, 1)].

(** An object whose members [d_init_], [d_prime_init_], [d_pprime_init_]
    and [d_ppprime_max_] hold [5], [6], [7] and [3] before the constructor
    body runs, and the two-station problem built over it with the step
    length [2] and the corridors [[-1, 1]] and [[0, 4]]. *)
Definition seeded_object : LateralTrajectoryOptimizer :=
  {| num_of_points_ := 0;
     num_of_variables_ := 0;
     delta_s_ := 0;
     d_bounds_ := [];
     w_d_ := 0;
     w_d_prime_ := 0;
     w_d_pprime_ := 0;
     w_d_obs_ := 0;
     d_init_ := 5;
     d_prime_init_ := 6;
     d_pprime_init_ := 7;
     d_ppprime_max_ := 3;
     nnz_jac_g_ := 0;
     opt_piecewise_trajectory_ := PiecewiseJerkTrajectory1d_new 0 0 0 |}.

Definition two_stations_seeded : LateralTrajectoryOptimizer :=
  init_members seeded_object 5 6 7 2 [(-1, 1); (0, 4)].

(** The fourteen triplets of the seeded two-station problem. *)
Definition seeded_rows : list Z :=
  [0; 0; 1; 1; 1; 1; 2; 2; 2; 2; 2; 3; 3; 3]%Z.
Definition seeded_cols : list Z :=
  [4; 5; 2; 3; 4; 5; 0; 1; 2; 4; 5; 0; 2; 4]%Z.
Definition seeded_vals : list R :=
  [1; -1; 1; -1; 0.5 * 2; 0.5 * 2; 1; -1; 2; 2 * 2 / 3; 2 * 2 / 6; 1; 1; 1].

(** * Properties *)

(** ** Loads, stores and loops *)

Lemma length_store {A : Type} (i : nat) (v : A) (buf : list A) :
  length (store i v buf) = length buf.
Proof. apply length_insert. Qed.

Lemma nth_store_eq {A : Type} (d : A) (i : nat) (v : A) (buf : list A) :
  (i < length buf)%nat -> nth i (store i v buf) d = v.
Proof.
  intros Hi. unfold store.
  rewrite nth_lookup, list_lookup_insert_eq by exact Hi. reflexivity.
Qed.

Lemma nth_store_ne {A : Type} (d : A) (i j : nat) (v : A) (buf : list A) :
  i <> j -> nth j (store i v buf) d = nth j buf d.
Proof.
  intros Hij. unfold store.
  rewrite !nth_lookup, list_lookup_insert_ne by exact Hij. reflexivity.
Qed.

Lemma load_store_eq (i : nat) (v : R) (buf : list R) :
  (i < length buf)%nat -> load (store i v buf) i = v.
Proof. apply nth_store_eq. Qed.

Lemma load_store_ne (i j : nat) (v : R) (buf : list R) :
  i <> j -> load (store i v buf) j = load buf j.
Proof. apply nth_store_ne. Qed.

Lemma for_range_empty {S : Type} (a b : nat) (body : nat -> S -> S) (s : S) :
  (b <= a)%nat -> for_range a b body s = s.
Proof.
  intros Hba. unfold for_range.
  replace (b - a)%nat with 0%nat by lia. reflexivity.
Qed.

Lemma for_range_last {S : Type} (a b : nat) (body : nat -> S -> S) (s : S) :
  (a <= b)%nat ->
  for_range a (Datatypes.S b) body s = body b (for_range a b body s).
Proof.
  intros Hab. unfold for_range.
  replace (Datatypes.S b - a)%nat with (Datatypes.S (b - a)) by lia.
  rewrite seq_S, fold_left_app. simpl.
  replace (a + (b - a))%nat with b by lia. reflexivity.
Qed.

(** Loop invariant rule. *)
Lemma for_range_invariant {S : Type} (P : nat -> S -> Prop) (a b : nat)
    (body : nat -> S -> S) (s : S) :
  (a <= b)%nat ->
  P a s ->
  (forall i t, (a <= i < b)%nat -> P i t -> P (Datatypes.S i) (body i t)) ->
  P b (for_range a b body s).
Proof.
  intros Hab Ha Hstep. induction b as [|b IH].
  - assert (a = 0%nat) by lia. subst a. rewrite for_range_empty by lia. exact Ha.
  - destruct (Nat.eq_dec a (Datatypes.S b)) as [->|Hne].
    + rewrite for_range_empty by lia. exact Ha.
    + rewrite for_range_last by lia. apply Hstep; [lia|].
      apply IH; [lia|]. intros i t Hi. apply Hstep. lia.
Qed.

Lemma for_range_ext {S : Type} (a b : nat) (body body' : nat -> S -> S) (s : S) :
  (forall i t, (a <= i < b)%nat -> body i t = body' i t) ->
  for_range a b body s = for_range a b body' s.
Proof.
  intros Hext. destruct (Nat.le_gt_cases a b) as [Hab|Hab].
  - apply (for_range_invariant
             (fun i t => t = for_range a i body' s) a b body s Hab).
    + rewrite for_range_empty by lia. reflexivity.
    + intros i t Hi ->. rewrite for_range_last by lia. apply Hext, Hi.
  - rewrite !for_range_empty by lia. reflexivity.
Qed.

(** A projection of the loop state that each iteration transforms on its
    own is transformed by the loop on its own. *)
Lemma for_range_proj {S T : Type} (proj : S -> T) (a b : nat)
    (body : nat -> S -> S) (body' : nat -> T -> T) (s : S) :
  (forall i t, proj (body i t) = body' i (proj t)) ->
  proj (for_range a b body s) = for_range a b body' (proj s).
Proof.
  intros Hproj. unfold for_range. revert s.
  induction (seq a (b - a)) as [|i l IH]; intros s; simpl.
  - reflexivity.
  - rewrite IH, Hproj. reflexivity.
Qed.

Lemma for_range_id {S : Type} (a b : nat) (s : S) :
  for_range a b (fun _ t => t) s = s.
Proof.
  unfold for_range. induction (seq a (b - a)) as [|i l IH]; simpl; auto.
Qed.

Lemma size_sub_le (a b : nat) : (b <= a)%nat -> size_sub a b = (a - b)%nat.
Proof.
  intros Hba. unfold size_sub.
  destruct (Nat.leb_spec b a) as [_|Hlt]; [reflexivity|lia].
Qed.

Lemma nth_store {A : Type} (d : A) (i j : nat) (v : A) (buf : list A) :
  nth j (store i v buf) d
  = if decide (i = j /\ (i < length buf)%nat) then v else nth j buf d.
Proof.
  case_decide as Hij.
  - destruct Hij as [<- Hi]. apply nth_store_eq, Hi.
  - destruct (Nat.eq_dec i j) as [<-|Hne].
    + unfold store. rewrite list_insert_ge by lia. reflexivity.
    + apply nth_store_ne, Hne.
Qed.

Lemma load_store (i j : nat) (v : R) (buf : list R) :
  load (store i v buf) j
  = if decide (i = j /\ (i < length buf)%nat) then v else load buf j.
Proof. apply nth_store. Qed.

(** A loop whose iterations each advance a counter by [c] advances it by
    [c] times the number of iterations. *)
Lemma for_range_count {S : Type} (count : S -> nat) (c a b : nat)
    (body : nat -> S -> S) (s : S) :
  (forall i t, count (body i t) = (c + count t)%nat) ->
  count (for_range a b body s) = (count s + c * (b - a))%nat.
Proof.
  intros Hbody.
  rewrite (for_range_proj count a b body (fun _ k => (c + k)%nat))
    by exact Hbody.
  assert (Hfold : forall (l : list nat) (k : nat),
             fold_left (fun acc _ => (c + acc)%nat) l k
             = (k + c * length l)%nat).
  { induction l as [|i l IH]; intros k; simpl; [lia|rewrite IH; lia]. }
  unfold for_range. rewrite Hfold, length_seq. reflexivity.
Qed.

(** A reflexive and transitive relation that every iteration respects
    relates the state before the loop to the state after it. *)
Lemma for_range_preserves {S : Type} (Rel : S -> S -> Prop) (a b : nat)
    (body : nat -> S -> S) (s : S) :
  (forall t, Rel t t) ->
  (forall t1 t2 t3, Rel t1 t2 -> Rel t2 t3 -> Rel t1 t3) ->
  (forall i t, Rel t (body i t)) ->
  Rel s (for_range a b body s).
Proof.
  intros Hrefl Htrans Hbody. unfold for_range. revert s.
  induction (seq a (b - a)) as [|i l IH]; intros s; simpl.
  - apply Hrefl.
  - eapply Htrans; [apply Hbody|apply IH].
Qed.

Lemma repeat_snoc {A : Type} (a : A) (k : nat) :
  repeat a k ++ [a] = repeat a (S k).
Proof. induction k as [|k IH]; simpl; [reflexivity|f_equal; exact IH]. Qed.

(** ** Write logs *)

Lemma stores_app {A : Type} (ws1 ws2 : list (nat * A)) (buf : list A) :
  stores (ws1 ++ ws2) buf = stores ws2 (stores ws1 buf).
Proof. unfold stores. apply fold_left_app. Qed.

Lemma length_stores {A : Type} (ws : list (nat * A)) (buf : list A) :
  length (stores ws buf) = length buf.
Proof.
  revert buf. induction ws as [|w ws IH]; intros buf; simpl.
  - reflexivity.
  - change (length (stores ws (store (fst w) (snd w) buf)) = length buf).
    rewrite IH. apply length_store.
Qed.

(** An index that the log never writes keeps its value. *)
Lemma nth_stores_untouched {A : Type} (d : A) (ws : list (nat * A))
    (buf : list A) (j : nat) :
  (forall w, In w ws -> fst w <> j) ->
  nth j (stores ws buf) d = nth j buf d.
Proof.
  revert buf. induction ws as [|w ws IH]; intros buf Hws.
  - reflexivity.
  - change (nth j (stores ws (store (fst w) (snd w) buf)) d = nth j buf d).
    rewrite IH by (intros w' Hw'; apply Hws; right; exact Hw').
    apply nth_store_ne. apply Hws. left. reflexivity.
Qed.

(** An index that the log writes, always with the same value, holds that
    value. *)
Lemma nth_stores_written {A : Type} (d : A) (ws : list (nat * A))
    (buf : list A) (j : nat) (v : A) :
  (j < length buf)%nat ->
  (exists w, In w ws /\ fst w = j) ->
  (forall w, In w ws -> fst w = j -> snd w = v) ->
  nth j (stores ws buf) d = v.
Proof.
  intros Hj. induction ws as [|w ws IH] using rev_ind; intros Hex Hval.
  - destruct Hex as (w & [] & _).
  - rewrite stores_app.
    change (nth j (store (fst w) (snd w) (stores ws buf)) d = v).
    destruct (Nat.eq_dec (fst w) j) as [Heq|Hne].
    + rewrite Heq, nth_store_eq by (rewrite length_stores; exact Hj).
      apply Hval; [apply in_or_app; right; left; reflexivity|exact Heq].
    + rewrite nth_store_ne by exact Hne. apply IH.
      * destruct Hex as (w' & Hin & Hw'). exists w'. split; [|exact Hw'].
        apply in_app_or in Hin. destruct Hin as [Hin|[<-|[]]];
          [exact Hin|contradiction].
      * intros w' Hin. apply Hval. apply in_or_app. left. exact Hin.
Qed.

(** A loop of write logs is the log of all its iterations. *)
Lemma for_range_stores {A : Type} (ws : nat -> list (nat * A)) (a b : nat)
    (buf : list A) :
  for_range a b (fun i buf => stores (ws i) buf) buf
  = stores (concat (map ws (seq a (b - a)))) buf.
Proof.
  unfold for_range. revert buf.
  induction (seq a (b - a)) as [|i l IH]; intros buf; simpl.
  - reflexivity.
  - rewrite stores_app. apply IH.
Qed.

Lemma in_loop_log {A : Type} (ws : nat -> list (nat * A)) (a b : nat)
    (w : nat * A) :
  In w (concat (map ws (seq a (b - a))))
  <-> exists i, (a <= i < b)%nat /\ In w (ws i).
Proof.
  rewrite in_concat. split.
  - intros (l & Hl & Hw). apply in_map_iff in Hl.
    destruct Hl as (i & <- & Hi). apply in_seq in Hi.
    exists i. split; [lia|exact Hw].
  - intros (i & Hi & Hw). exists (ws i). split; [|exact Hw].
    apply in_map. apply in_seq. lia.
Qed.

Lemma length_for_range_stores {A : Type} (ws : nat -> list (nat * A))
    (a b : nat) (buf : list A) :
  length (for_range a b (fun i buf => stores (ws i) buf) buf) = length buf.
Proof. rewrite for_range_stores. apply length_stores. Qed.

Lemma nth_for_range_untouched {A : Type} (d : A) (ws : nat -> list (nat * A))
    (a b : nat) (buf : list A) (j : nat) :
  (forall i w, (a <= i < b)%nat -> In w (ws i) -> fst w <> j) ->
  nth j (for_range a b (fun i buf => stores (ws i) buf) buf) d = nth j buf d.
Proof.
  intros Hws. rewrite for_range_stores. apply nth_stores_untouched.
  intros w Hw. apply in_loop_log in Hw. destruct Hw as (i & Hi & Hw).
  exact (Hws i w Hi Hw).
Qed.

Lemma nth_for_range_written {A : Type} (d : A) (ws : nat -> list (nat * A))
    (a b : nat) (buf : list A) (j : nat) (v : A) :
  (j < length buf)%nat ->
  (exists i w, (a <= i < b)%nat /\ In w (ws i) /\ fst w = j) ->
  (forall i w, (a <= i < b)%nat -> In w (ws i) -> fst w = j -> snd w = v) ->
  nth j (for_range a b (fun i buf => stores (ws i) buf) buf) d = v.
Proof.
  intros Hj (i & w & Hi & Hw & Hfst) Hval. rewrite for_range_stores.
  apply nth_stores_written; [exact Hj| |].
  - exists w. split; [|exact Hfst]. apply in_loop_log. exists i. tauto.
  - intros w' Hw'. apply in_loop_log in Hw'.
    destruct Hw' as (i' & Hi' & Hw'). exact (Hval i' w' Hi' Hw').
Qed.

Lemma load_for_range_untouched (ws : nat -> list (nat * R)) (a b : nat)
    (buf : list R) (j : nat) :
  (forall i w, (a <= i < b)%nat -> In w (ws i) -> fst w <> j) ->
  load (for_range a b (fun i buf => stores (ws i) buf) buf) j = load buf j.
Proof. apply nth_for_range_untouched. Qed.

Lemma load_for_range_written (ws : nat -> list (nat * R)) (a b : nat)
    (buf : list R) (j : nat) (v : R) :
  (j < length buf)%nat ->
  (exists i w, (a <= i < b)%nat /\ In w (ws i) /\ fst w = j) ->
  (forall i w, (a <= i < b)%nat -> In w (ws i) -> fst w = j -> snd w = v) ->
  load (for_range a b (fun i buf => stores (ws i) buf) buf) j = v.
Proof. apply nth_for_range_written. Qed.

(** A loop that stores [v i] at index [off + i]. *)
Lemma nth_for_range_store {A : Type} (d : A) (off : nat) (v : nat -> A)
    (a b : nat) (buf : list A) (j : nat) :
  (off + b <= length buf)%nat ->
  nth j (for_range a b (fun i buf => store (off + i) (v i) buf) buf) d
  = if decide (off + a <= j < off + b)%nat then v (j - off)%nat
    else nth j buf d.
Proof.
  intros Hlen. case_decide as Hj.
  - apply (nth_for_range_written d (fun i => [((off + i)%nat, v i)])).
    + lia.
    + exists (j - off)%nat, ((off + (j - off))%nat, v (j - off)%nat).
      split; [lia|]. split; [left; reflexivity|cbn [fst]; lia].
    + intros i w _ [<-|[]] Hi. cbn [fst snd] in *.
      f_equal. lia.
  - apply (nth_for_range_untouched d (fun i => [((off + i)%nat, v i)])).
    intros i w Hi [<-|[]]. cbn [fst]. lia.
Qed.

Lemma length_for_range_store {A : Type} (f : nat -> nat) (v : nat -> A)
    (a b : nat) (buf : list A) :
  length (for_range a b (fun i buf => store (f i) (v i) buf) buf) = length buf.
Proof.
  apply (length_for_range_stores (fun i => [(f i, v i)])).
Qed.

Lemma length_fill {A : Type} (k : nat) (v : A) (buf : list A) :
  length (fill k v buf) = length buf.
Proof. apply (length_for_range_store (fun i => i)). Qed.

(** ** Real arithmetic *)

(** The literal [0.5]. *)
Lemma half_decimal : 0.5 = / 2.
Proof. lra. Qed.

Lemma square_zero (a : R) : a * a <= 0 -> a = 0.
Proof.
  intros Ha. pose proof (Rle_0_sqr a) as Hsq. unfold Rsqr in Hsq.
  assert (Hz : a * a = 0) by lra.
  destruct (Rmult_integral _ _ Hz); assumption.
Qed.

Lemma four_squares_zero (a b c d : R) :
  a * a + b * b + c * c + d * d = 0 -> a = 0 /\ b = 0 /\ c = 0 /\ d = 0.
Proof.
  intros Hsum.
  pose proof (Rle_0_sqr a) as Ha. pose proof (Rle_0_sqr b) as Hb.
  pose proof (Rle_0_sqr c) as Hc. pose proof (Rle_0_sqr d) as Hd.
  unfold Rsqr in *.
  repeat split; apply square_zero; lra.
Qed.

(** A loop that adds one term per index computes the sum of the terms. *)
Lemma for_range_sum (n : nat) (f : nat -> R) (s : R) :
  for_range 0 n (fun i acc => acc + f i) s = s + sum_upto n f.
Proof.
  induction n as [|n IH].
  - rewrite for_range_empty by lia. simpl. lra.
  - rewrite for_range_last by lia. rewrite IH. simpl. lra.
Qed.

Lemma sum_upto_ext (n : nat) (f g : nat -> R) :
  (forall i, (i < n)%nat -> f i = g i) -> sum_upto n f = sum_upto n g.
Proof.
  induction n as [|n IH]; intros Hfg; simpl.
  - reflexivity.
  - rewrite IH, Hfg by (intros; try apply Hfg; lia). reflexivity.
Qed.

Lemma sum_upto_nonneg (n : nat) (f : nat -> R) :
  (forall i, (i < n)%nat -> 0 <= f i) -> 0 <= sum_upto n f.
Proof.
  induction n as [|n IH]; intros Hf; simpl.
  - lra.
  - assert (0 <= sum_upto n f) by (apply IH; intros; apply Hf; lia).
    assert (0 <= f n) by (apply Hf; lia). lra.
Qed.

Lemma sum_upto_zero (n : nat) (f : nat -> R) :
  (forall i, (i < n)%nat -> 0 <= f i) ->
  sum_upto n f = 0 ->
  forall i, (i < n)%nat -> f i = 0.
Proof.
  induction n as [|n IH]; intros Hf Hsum i Hi; [lia|].
  simpl in Hsum.
  assert (0 <= sum_upto n f) by (apply sum_upto_nonneg; intros; apply Hf; lia).
  assert (0 <= f n) by (apply Hf; lia).
  destruct (Nat.eq_dec i n) as [->|Hne]; [lra|].
  apply IH; [intros; apply Hf; lia|lra|lia].
Qed.

(** The derivative of an affine function is its slope. *)
Lemma derivable_pt_lim_affine (f : R -> R) (a b x : R) :
  (forall t, f t = a * t + b) -> derivable_pt_lim f x a.
Proof.
  intros Hf eps Heps. exists (mkposreal 1 Rlt_0_1). intros h Hh _.
  rewrite !Hf.
  replace ((a * (x + h) + b - (a * x + b)) / h - a) with 0
    by (field; exact Hh).
  rewrite Rabs_R0. exact Heps.
Qed.

(** ** Construction *)

(** C4, as stated, fails.  Construction completes on each kind of malformed
    input: a single corridor pair, a step length of zero, and a corridor
    pair whose lower bound exceeds its upper bound. *)
Lemma construct_accepts_malformed_input :
  (malformed 1 [(-1, 1)]
   /\ construct zero_object 0 0 0 1 [(-1, 1)] <> Fatal)
  /\ (malformed 0 [(-1, 1); (-1, 1)]
      /\ construct zero_object 0 0 0 0 [(-1, 1); (-1, 1)] <> Fatal)
  /\ (malformed 1 [(1, -1); (-1, 1)]
      /\ construct zero_object 0 0 0 1 [(1, -1); (-1, 1)] <> Fatal).
Proof.
  repeat split; try discriminate.
  - left. simpl. lia.
  - right. left. lra.
  - right. right. apply Exists_cons_hd. simpl. lra.
Qed.

(** C4, amended.  The constructor validates nothing: for every input,
    malformed or not, construction completes and yields an optimizer that
    records the corridor pairs and the step length as given, with
    [num_of_points_] the number of pairs and the four weights equal to one. *)
Theorem construct_never_fails :
  forall (raw : LateralTrajectoryOptimizer)
         (d_init d_prime_init d_pprime_init delta_s : R)
         (d_bounds : list (R * R)),
  exists this : LateralTrajectoryOptimizer,
    construct raw d_init d_prime_init d_pprime_init delta_s d_bounds = Done this
    /\ num_of_points_ this = length d_bounds
    /\ delta_s_ this = delta_s
    /\ d_bounds_ this = d_bounds
    /\ w_d_ this = 1 /\ w_d_prime_ this = 1
    /\ w_d_pprime_ this = 1 /\ w_d_obs_ this = 1.
Proof.
  intros raw d_init d_prime_init d_pprime_init delta_s d_bounds.
  eexists. split; [reflexivity|]. simpl. repeat split.
Qed.

(** ** Bounds *)

Section GetBoundsInfo.

Variable this : LateralTrajectoryOptimizer.
Variables (n m : Z) (b : bounds).

Local Abbreviation N := (num_of_points_ this).

Ltac skip_loop proj :=
  rewrite (for_range_proj proj _ _ _ (fun _ t => t)) by reflexivity;
  rewrite for_range_id.

Lemma get_bounds_info_x_l :
  x_l (fst (get_bounds_info this n m b))
  = for_range 0 N (fun i buf => store (2 * N + i) (- 10) buf)
      (for_range 0 N (fun i buf => store (N + i) (- 10) buf)
         (for_range 0 N (fun i buf => store (0 + i) (fst (d_bound this i)) buf)
            (x_l b))).
Proof.
  unfold get_bounds_info, for_pairs. cbv zeta.
  cbn [fst x_l set_g_l set_g_u].
  do 3 skip_loop x_l.
  rewrite (for_range_proj x_l _ _ _
             (fun i buf => store (2 * N + i) (- 10) buf)) by reflexivity.
  rewrite (for_range_proj x_l _ _ _
             (fun i buf => store (N + i) (- 10) buf)) by reflexivity.
  rewrite (for_range_proj x_l _ _ _
             (fun i buf => store (0 + i) (fst (d_bound this i)) buf))
    by reflexivity.
  reflexivity.
Qed.

Lemma get_bounds_info_x_u :
  x_u (fst (get_bounds_info this n m b))
  = for_range 0 N (fun i buf => store (2 * N + i) 10 buf)
      (for_range 0 N (fun i buf => store (N + i) 10 buf)
         (for_range 0 N (fun i buf => store (0 + i) (snd (d_bound this i)) buf)
            (x_u b))).
Proof.
  unfold get_bounds_info, for_pairs. cbv zeta.
  cbn [fst x_u set_g_l set_g_u].
  do 3 skip_loop x_u.
  rewrite (for_range_proj x_u _ _ _
             (fun i buf => store (2 * N + i) 10 buf)) by reflexivity.
  rewrite (for_range_proj x_u _ _ _
             (fun i buf => store (N + i) 10 buf)) by reflexivity.
  rewrite (for_range_proj x_u _ _ _
             (fun i buf => store (0 + i) (snd (d_bound this i)) buf))
    by reflexivity.
  reflexivity.
Qed.

Lemma get_bounds_info_g_l :
  g_l (fst (get_bounds_info this n m b))
  = store (3 * size_sub N 1 + 2) 0
      (store (3 * size_sub N 1 + 1) 0
         (store (3 * size_sub N 1) 0
            (for_range 0 (Nat.pred N)
               (fun i buf => store (2 * size_sub N 1 + i) 0 buf)
               (for_range 0 (Nat.pred N)
                  (fun i buf => store (size_sub N 1 + i) 0 buf)
                  (for_range 0 (Nat.pred N)
                     (fun i buf =>
                        store (0 + i)
                          (- d_ppprime_max_ this * delta_s_ this) buf)
                     (g_l b)))))).
Proof.
  unfold get_bounds_info, for_pairs. cbv zeta.
  cbn [fst g_l set_g_l set_g_u].
  rewrite (for_range_proj g_l _ _ _
             (fun i buf => store (2 * size_sub N 1 + i) 0 buf))
    by reflexivity.
  rewrite (for_range_proj g_l _ _ _
             (fun i buf => store (size_sub N 1 + i) 0 buf)) by reflexivity.
  rewrite (for_range_proj g_l _ _ _
             (fun i buf =>
                store (0 + i) (- d_ppprime_max_ this * delta_s_ this) buf))
    by reflexivity.
  do 3 skip_loop g_l.
  reflexivity.
Qed.

Lemma get_bounds_info_g_u :
  g_u (fst (get_bounds_info this n m b))
  = store (3 * size_sub N 1 + 2) 0
      (store (3 * size_sub N 1 + 1) 0
         (store (3 * size_sub N 1) 0
            (for_range 0 (Nat.pred N)
               (fun i buf => store (2 * size_sub N 1 + i) 0 buf)
               (for_range 0 (Nat.pred N)
                  (fun i buf => store (size_sub N 1 + i) 0 buf)
                  (for_range 0 (Nat.pred N)
                     (fun i buf =>
                        store (0 + i)
                          (d_ppprime_max_ this * delta_s_ this) buf)
                     (g_u b)))))).
Proof.
  unfold get_bounds_info, for_pairs. cbv zeta.
  cbn [fst g_u set_g_l set_g_u].
  rewrite (for_range_proj g_u _ _ _
             (fun i buf => store (2 * size_sub N 1 + i) 0 buf))
    by reflexivity.
  rewrite (for_range_proj g_u _ _ _
             (fun i buf => store (size_sub N 1 + i) 0 buf)) by reflexivity.
  rewrite (for_range_proj g_u _ _ _
             (fun i buf =>
                store (0 + i) (d_ppprime_max_ this * delta_s_ this) buf))
    by reflexivity.
  do 3 skip_loop g_u.
  reflexivity.
Qed.

End GetBoundsInfo.

(** C9.  On buffers of [3N] entries, [get_bounds_info] writes the corridor
    of station [i] to [x_l[i]], [x_u[i]] for [i < N], the literals [-10] and
    [10] to every index of the [d'] and [d''] blocks, the box
    [[-d_ppprime_max_ * delta_s_, d_ppprime_max_ * delta_s_]] to the [N-1]
    constraint rows of block 1, and zero lower and upper bounds to every
    remaining constraint row. *)
Theorem get_bounds_info_fills_bounds :
  forall (this : LateralTrajectoryOptimizer) (n m : Z) (b : bounds),
  let N := num_of_points_ this in
  length (x_l b) = (3 * N)%nat -> length (x_u b) = (3 * N)%nat ->
  length (g_l b) = (3 * N)%nat -> length (g_u b) = (3 * N)%nat ->
  let b' := fst (get_bounds_info this n m b) in
  snd (get_bounds_info this n m b) = true
  /\ (forall i, (i < N)%nat ->
        load (x_l b') i = fst (d_bound this i)
        /\ load (x_u b') i = snd (d_bound this i))
  /\ (forall i, (N <= i < 3 * N)%nat ->
        load (x_l b') i = - 10 /\ load (x_u b') i = 10)
  /\ (forall i, (i + 1 < N)%nat ->
        load (g_l b') i = - d_ppprime_max_ this * delta_s_ this
        /\ load (g_u b') i = d_ppprime_max_ this * delta_s_ this)
  /\ (forall i, (N - 1 <= i < 3 * N)%nat ->
        load (g_l b') i = 0 /\ load (g_u b') i = 0).
Proof.
  intros this n m b N Hxl Hxu Hgl Hgu b'. subst b'.
  split; [reflexivity|].
  unfold load. subst N.
  rewrite get_bounds_info_x_l, get_bounds_info_x_u,
    get_bounds_info_g_l, get_bounds_info_g_u.
  split; [|split; [|split]]; intros i Hi; split.
  - rewrite !nth_for_range_store
      by (rewrite ?length_for_range_store; lia).
    repeat case_decide; try lia. rewrite Nat.sub_0_r. reflexivity.
  - rewrite !nth_for_range_store
      by (rewrite ?length_for_range_store; lia).
    repeat case_decide; try lia. rewrite Nat.sub_0_r. reflexivity.
  - rewrite !nth_for_range_store
      by (rewrite ?length_for_range_store; lia).
    repeat case_decide; try lia; reflexivity.
  - rewrite !nth_for_range_store
      by (rewrite ?length_for_range_store; lia).
    repeat case_decide; try lia; reflexivity.
  - rewrite size_sub_le by lia. rewrite !nth_store.
    rewrite !nth_for_range_store
      by (rewrite ?length_for_range_store; lia).
    repeat case_decide; try lia; reflexivity.
  - rewrite size_sub_le by lia. rewrite !nth_store.
    rewrite !nth_for_range_store
      by (rewrite ?length_for_range_store; lia).
    repeat case_decide; try lia; reflexivity.
  - rewrite size_sub_le by lia. rewrite !nth_store.
    rewrite !nth_for_range_store
      by (rewrite ?length_for_range_store; lia).
    rewrite !length_store, !length_for_range_store.
    repeat case_decide; try lia; reflexivity.
  - rewrite size_sub_le by lia. rewrite !nth_store.
    rewrite !nth_for_range_store
      by (rewrite ?length_for_range_store; lia).
    rewrite !length_store, !length_for_range_store.
    repeat case_decide; try lia; reflexivity.
Qed.

(** C9 on the two-station problem. *)
Lemma get_bounds_info_fills_bounds_example :
  let zeros := [0; 0; 0; 0; 0; 0] in
  let b := {| x_l := zeros; x_u := zeros; g_l := zeros; g_u := zeros |} in
  let b' := fst (get_bounds_info two_stations 6 6 b) in
  (load (x_l b') 1 = fst (d_bound two_stations 1)
   /\ load (x_u b') 1 = snd (d_bound two_stations 1))
  /\ (load (x_l b') 3 = - 10 /\ load (x_u b') 3 = 10)
  /\ (load (g_l b') 0
      = - d_ppprime_max_ two_stations * delta_s_ two_stations
      /\ load (g_u b') 0
         = d_ppprime_max_ two_stations * delta_s_ two_stations)
  /\ (load (g_l b') 5 = 0 /\ load (g_u b') 5 = 0).
Proof.
  cbv zeta.
  destruct (get_bounds_info_fills_bounds two_stations 6 6
              {| x_l := [0; 0; 0; 0; 0; 0]; x_u := [0; 0; 0; 0; 0; 0];
                 g_l := [0; 0; 0; 0; 0; 0]; g_u := [0; 0; 0; 0; 0; 0] |}
              eq_refl eq_refl eq_refl eq_refl)
    as (_ & Hd & Hrates & Hjerk & Hzero).
  split; [apply Hd; simpl; lia|].
  split; [apply Hrates; simpl; lia|].
  split; [apply Hjerk; simpl; lia|].
  apply Hzero. simpl. lia.
Defined.

(** ** The starting point *)

Section GetStartingPoint.

Variable this : LateralTrajectoryOptimizer.
Variables (n m : Z) (s : start_buffers).

Local Abbreviation N := (num_of_points_ this).

Local Abbreviation filled := (starting_point_buffers this s).

(** With the size and the three flags that Ipopt passes,
    [get_starting_point] runs to its end and returns [false]. *)
Lemma get_starting_point_done :
  size_of_int n = Z.of_nat (N * 3) ->
  get_starting_point this n true false m false s = Done (filled, false).
Proof.
  intros Hn. unfold get_starting_point, CHECK_EQ_size, CHECK.
  rewrite Hn, Z.eqb_refl. reflexivity.
Qed.

(** Any other flag, or another size, aborts. *)
Lemma get_starting_point_fatal (init_x init_z init_lambda : bool) :
  size_of_int n <> Z.of_nat (N * 3)
  \/ init_x = false \/ init_z = true \/ init_lambda = true ->
  get_starting_point this n init_x init_z m init_lambda s = Fatal.
Proof.
  unfold get_starting_point, CHECK_EQ_size, CHECK.
  intros [Hn | [ -> | [ -> | -> ]]].
  - apply Z.eqb_neq in Hn. rewrite Hn. reflexivity.
  - destruct (_ =? _)%Z; reflexivity.
  - destruct (_ =? _)%Z, init_x; reflexivity.
  - destruct (_ =? _)%Z, init_x, init_z; reflexivity.
Qed.

Lemma filled_duals :
  start_z_L filled = start_z_L s
  /\ start_z_U filled = start_z_U s
  /\ start_lambda filled = start_lambda s.
Proof.
  unfold starting_point_buffers.
  cbn [start_z_L start_z_U start_lambda set_start_x].
  rewrite (for_range_proj start_z_L _ _ _ (fun _ t => t)) by reflexivity.
  rewrite (for_range_proj start_z_U _ _ _ (fun _ t => t)) by reflexivity.
  rewrite (for_range_proj start_lambda _ _ _ (fun _ t => t)) by reflexivity.
  rewrite !for_range_id. repeat split.
Qed.

Lemma filled_x :
  start_x filled
  = store (N + N) (d_pprime_init_ this)
      (store N (d_prime_init_ this)
         (store 0 (d_init_ this)
            (for_range 0 N (fun i buf =>
               stores [(i, 0); ((N + i)%nat, 0); ((N + N + i)%nat, 0)] buf)
               (start_x s)))).
Proof.
  unfold starting_point_buffers. cbn [start_x set_start_x].
  rewrite (for_range_proj start_x _ _ _
             (fun i buf =>
                stores [(i, 0); ((N + i)%nat, 0); ((N + N + i)%nat, 0)] buf))
    by reflexivity.
  reflexivity.
Qed.

Hypothesis some_station : (1 <= N)%nat.
Hypothesis x_sized : length (start_x s) = (3 * N)%nat.

Lemma length_filled_x : length (start_x filled) = (3 * N)%nat.
Proof.
  rewrite filled_x, !length_store, length_for_range_stores. exact x_sized.
Qed.

(** The guess is zero except at [0], [N] and [2N], where it holds the
    members [d_init_], [d_prime_init_] and [d_pprime_init_]. *)
Lemma filled_x_entries (j : nat) :
  (j < 3 * N)%nat ->
  load (start_x filled) j
  = if decide (j = 0%nat) then d_init_ this
    else if decide (j = N) then d_prime_init_ this
    else if decide (j = (2 * N)%nat) then d_pprime_init_ this
    else 0.
Proof.
  intros Hj. rewrite filled_x. unfold load. rewrite !nth_store.
  rewrite !length_store, length_for_range_stores, x_sized.
  repeat case_decide; try lia; try reflexivity.
  apply nth_for_range_written; [lia| |].
  - destruct (Nat.lt_ge_cases j N) as [Hlt|Hge];
      [|destruct (Nat.lt_ge_cases j (N + N)) as [Hlt|Hge']].
    + exists j, (j, 0). split; [lia|]. split; [left; reflexivity|reflexivity].
    + exists (j - N)%nat, ((N + (j - N))%nat, 0). split; [lia|].
      split; [right; left; reflexivity|cbn [fst]; lia].
    + exists (j - (N + N))%nat, ((N + N + (j - (N + N)))%nat, 0).
      split; [lia|].
      split; [right; right; left; reflexivity|cbn [fst]; lia].
  - intros i w _ [<-|[<-|[<-|[]]]] _; reflexivity.
Qed.

End GetStartingPoint.

(** C10 at a failing input.  The constructor does not store its
    initial-state arguments in [d_init_], [d_prime_init_] and
    [d_pprime_init_], the members that [get_starting_point] reads: the guess
    is the same whatever initial state was supplied at construction.  On the
    two-station problem, constructed with the initial state [(1, 0, 0)] over
    an object whose members were zero, [x[0]] comes back as [0], where the
    specification has [d_init = 1]; the callback also returns [false]. *)
Theorem get_starting_point_misses_constructor_arguments :
  (forall (raw : LateralTrajectoryOptimizer)
          (d_init d_prime_init d_pprime_init : R)
          (d_init' d_prime_init' d_pprime_init' : R)
          (delta_s : R) (d_bounds : list (R * R))
          (n m : Z) (init_x init_z init_lambda : bool) (s : start_buffers),
     get_starting_point
       (init_members raw d_init d_prime_init d_pprime_init delta_s d_bounds)
       n init_x init_z m init_lambda s
     = get_starting_point
         (init_members raw d_init' d_prime_init' d_pprime_init' delta_s
            d_bounds)
         n init_x init_z m init_lambda s)
  /\ (let s := {| start_x := [7; 7; 7; 7; 7; 7]; start_z_L := [];
                  start_z_U := []; start_lambda := [] |} in
      get_starting_point two_stations 6 true false 6 false s
      = Done ({| start_x := [0; 0; 0; 0; 0; 0]; start_z_L := [];
                 start_z_U := []; start_lambda := [] |}, false)
      /\ initial_guess_spec 2 1 0 0 = [1; 0; 0; 0; 0; 0]
      /\ [0; 0; 0; 0; 0; 0] <> initial_guess_spec 2 1 0 0).
Proof.
  split.
  - intros. reflexivity.
  - cbv zeta. split; [|split].
    + rewrite get_starting_point_done by reflexivity. reflexivity.
    + reflexivity.
    + cbn. intros Heq. injection Heq as Hd. lra.
Qed.

(** ** The objective *)

Section Objective.

Variable this : LateralTrajectoryOptimizer.
Hypothesis unit_w_d : w_d_ this = 1.
Hypothesis unit_w_d_prime : w_d_prime_ this = 1.
Hypothesis unit_w_d_pprime : w_d_pprime_ this = 1.
Hypothesis unit_w_d_obs : w_d_obs_ this = 1.

Lemma eval_f_unit_weights (n : Z) (x : list R) (new_x : bool) :
  fst (eval_f this n x new_x) = objective_spec this x.
Proof.
  unfold eval_f, objective_spec. cbn [fst].
  rewrite unit_w_d, unit_w_d_prime, unit_w_d_pprime, unit_w_d_obs.
  rewrite <- (Rplus_0_l (sum_upto _ _)), <- for_range_sum.
  apply for_range_ext. intros i acc _.
  unfold d_of, d_prime_of, d_pprime_of, midpoint. rewrite half_decimal. field.
Qed.

Lemma objective_spec_nonneg (x : list R) : 0 <= objective_spec this x.
Proof.
  unfold objective_spec. apply sum_upto_nonneg. intros i _. nra.
Qed.

Lemma objective_spec_zero (x : list R) :
  objective_spec this x = 0 ->
  forall i, (i < num_of_points_ this)%nat ->
    d_of this x i = midpoint this i
    /\ d_prime_of this x i = 0
    /\ d_pprime_of this x i = 0.
Proof.
  intros Hzero i Hi. unfold objective_spec in Hzero.
  apply sum_upto_zero with (i := i) in Hzero; [|intros j _; nra|exact Hi].
  cbv beta in Hzero. apply four_squares_zero in Hzero.
  destruct Hzero as (_ & Hp & Hpp & Hmid). repeat split; lra.
Qed.

End Objective.

(** C8.  For an optimizer as the constructor leaves it (unit weights),
    [eval_f] returns the sum over the stations of
    [d_i^2 + d_i'^2 + d_i''^2 + (d_i - mid_i)^2]; the objective is never
    negative, and it is zero only when every [d_i] is the midpoint of its
    corridor and every [d_i'] and [d_i''] is zero. *)
Theorem eval_f_sum_of_squares :
  forall (raw : LateralTrajectoryOptimizer)
         (d_init d_prime_init d_pprime_init delta_s : R)
         (d_bounds : list (R * R)) (n : Z) (x : list R) (new_x : bool),
  let this :=
    init_members raw d_init d_prime_init d_pprime_init delta_s d_bounds in
  fst (eval_f this n x new_x) = objective_spec this x
  /\ snd (eval_f this n x new_x) = true
  /\ 0 <= fst (eval_f this n x new_x)
  /\ (fst (eval_f this n x new_x) = 0 ->
      forall i, (i < length d_bounds)%nat ->
        d_of this x i = midpoint this i
        /\ d_prime_of this x i = 0
        /\ d_pprime_of this x i = 0).
Proof.
  intros raw d_init d_prime_init d_pprime_init delta_s d_bounds n x new_x this.
  assert (Heq : fst (eval_f this n x new_x) = objective_spec this x)
    by (apply eval_f_unit_weights; reflexivity).
  rewrite Heq. repeat split.
  - apply objective_spec_nonneg.
  - apply objective_spec_zero; assumption.
  - apply objective_spec_zero; assumption.
  - apply objective_spec_zero; assumption.
Qed.

(** C8 on one station with the corridor [[-1, 1]]: the objective is zero at
    [x = 0], and there [d_0] is the midpoint and [d_0'], [d_0''] are zero. *)
Lemma eval_f_sum_of_squares_example :
  let this := init_members zero_object 0 0 0 1 [(-1, 1)] in
  fst (eval_f this 3 [0; 0; 0] true) = 0
  /\ d_of this [0; 0; 0] 0 = midpoint this 0
  /\ d_prime_of this [0; 0; 0] 0 = 0
  /\ d_pprime_of this [0; 0; 0] 0 = 0.
Proof.
  cbv zeta.
  assert (Hzero : fst (eval_f (init_members zero_object 0 0 0 1 [(-1, 1)])
                         3 [0; 0; 0] true) = 0) by (cbn; lra).
  split; [exact Hzero|].
  exact (proj2 (proj2 (proj2
           (eval_f_sum_of_squares zero_object 0 0 0 1 [(-1, 1)] 3 [0; 0; 0]
              true))) Hzero 0%nat ltac:(simpl; lia)).
Defined.

(** ** The constraint residuals *)

(** The residuals of one station pair in affine form. *)
Lemma continuity_residuals_affine (delta_s p0 v0 a0 p1 v1 a1 : R) :
  delta_s <> 0 ->
  continuity_residuals delta_s p0 v0 a0 p1 v1 a1
  = ((v0 - v1) + 0.5 * delta_s * (a0 + a1),
     (p0 - p1) + v0 * delta_s + delta_s * delta_s * (a0 / 3 + a1 / 6)).
Proof.
  intros Hds. unfold continuity_residuals, end_velocity, end_position.
  cbn [p0_ v0_ a0_ jerk_ param_]. rewrite half_decimal.
  f_equal; field; exact Hds.
Qed.

Section EvalG.

Variable this : LateralTrajectoryOptimizer.
Variables (n m : Z) (x g : list R) (new_x : bool).

Local Abbreviation N := (num_of_points_ this).

Hypothesis some_station : (1 <= N)%nat.
Hypothesis g_sized : length g = (3 * N)%nat.

Local Abbreviation g1 := (eval_g_after_loop1 this x g).
Local Abbreviation g2 := (eval_g_after_loop2 this x g).

Lemma eval_g_unfold :
  fst (eval_g this n x new_x m g)
  = store (3 * (N - 1) + 2) (load x (2 * N) - d_pprime_init_ this)
      (store (3 * (N - 1) + 1) (load x N - d_prime_init_ this)
         (store (3 * (N - 1)) (load x 0 - d_init_ this) g2)).
Proof.
  unfold eval_g. cbn [fst]. rewrite size_sub_le by exact some_station.
  reflexivity.
Qed.

Lemma length_g1 : length g1 = (3 * N)%nat.
Proof.
  unfold eval_g_after_loop1, for_pairs.
  rewrite length_for_range_stores. exact g_sized.
Qed.

Lemma length_g2 : length g2 = (3 * N)%nat.
Proof.
  unfold eval_g_after_loop2, for_pairs.
  rewrite length_for_range_stores. exact length_g1.
Qed.

Lemma eval_g_length : length (fst (eval_g this n x new_x m g)) = length g.
Proof.
  rewrite eval_g_unfold, !length_store, length_g2, g_sized. reflexivity.
Qed.

Lemma eval_g_block1 (i : nat) :
  (i + 1 < N)%nat ->
  load (fst (eval_g this n x new_x m g)) i
  = load x (2 * N + i + 1) - load x (2 * N + i).
Proof.
  intros Hi. rewrite eval_g_unfold, !load_store_ne by lia.
  unfold eval_g_after_loop2, for_pairs. rewrite load_for_range_untouched.
  - unfold eval_g_after_loop1, for_pairs.
    apply load_for_range_written; [rewrite g_sized; lia| |].
    + exists i, (i, load x (2 * N + i + 1) - load x (2 * N + i)).
      split; [lia|]. split; [left; reflexivity|reflexivity].
    + intros k w _ [<-|[]] Hk. cbn [fst snd] in *. subst k. reflexivity.
  - intros k w Hk [<-|[<-|[]]]; cbn [fst]; lia.
Qed.

Lemma eval_g_block2 (i : nat) :
  (i + 1 < N)%nat ->
  load (fst (eval_g this n x new_x m g)) (N - 1 + i)
  = fst (continuity_residuals (delta_s_ this)
           (load x i) (load x (N + i)) (load x (2 * N + i))
           (load x (i + 1)) (load x (N + i + 1)) (load x (2 * N + i + 1))).
Proof.
  intros Hi. rewrite eval_g_unfold, !load_store_ne by lia.
  unfold eval_g_after_loop2, for_pairs.
  apply load_for_range_written; [rewrite length_g1; lia| |].
  - eexists i, (_, _). split; [lia|]. split; [left; reflexivity|reflexivity].
  - intros k w Hk [<-|[<-|[]]] Hidx; cbn [fst snd] in *; [|lia].
    assert (k = i) by lia. subst k. reflexivity.
Qed.

Lemma eval_g_block3 (i : nat) :
  (i + 1 < N)%nat ->
  load (fst (eval_g this n x new_x m g)) (2 * (N - 1) + i)
  = snd (continuity_residuals (delta_s_ this)
           (load x i) (load x (N + i)) (load x (2 * N + i))
           (load x (i + 1)) (load x (N + i + 1)) (load x (2 * N + i + 1))).
Proof.
  intros Hi. rewrite eval_g_unfold, !load_store_ne by lia.
  unfold eval_g_after_loop2, for_pairs.
  apply load_for_range_written; [rewrite length_g1; lia| |].
  - eexists i, (_, _). split; [lia|].
    split; [right; left; reflexivity|reflexivity].
  - intros k w Hk [<-|[<-|[]]] Hidx; cbn [fst snd] in *; [lia|].
    assert (k = i) by lia. subst k. reflexivity.
Qed.

Lemma eval_g_block4 :
  load (fst (eval_g this n x new_x m g)) (3 * (N - 1))
  = load x 0 - d_init_ this
  /\ load (fst (eval_g this n x new_x m g)) (3 * (N - 1) + 1)
     = load x N - d_prime_init_ this
  /\ load (fst (eval_g this n x new_x m g)) (3 * (N - 1) + 2)
     = load x (2 * N) - d_pprime_init_ this.
Proof.
  rewrite eval_g_unfold. repeat split.
  - rewrite !load_store_ne by lia. apply load_store_eq. rewrite length_g2. lia.
  - rewrite load_store_ne by lia. apply load_store_eq.
    rewrite length_store, length_g2. lia.
  - apply load_store_eq. rewrite !length_store, length_g2. lia.
Qed.

End EvalG.

(** C6.  For a step [delta_s > 0] and any two states [(p0, v0, a0)] and
    [(p1, v1, a1)], the velocity and position residuals that the loop body
    of [eval_g] computes by simulating the constant-jerk segment with the
    implied jerk [(a1 - a0) / delta_s] are the affine forms
    [(v0 - v1) + 0.5*delta_s*(a0 + a1)] and
    [(p0 - p1) + v0*delta_s + delta_s^2*(a0/3 + a1/6)]; and these are the
    values [eval_g] stores in rows [N-1+i] and [2(N-1)+i] for the station
    pair [(i, i+1)] of the decision vector. *)
Theorem continuity_residuals_closed_form :
  forall (delta_s : R), delta_s > 0 ->
  (forall p0 v0 a0 p1 v1 a1 : R,
     let j := (a1 - a0) / delta_s in
     let t := {| p0_ := p0; v0_ := v0; a0_ := a0; jerk_ := j;
                 param_ := delta_s |} in
     continuity_residuals delta_s p0 v0 a0 p1 v1 a1
     = (end_velocity t - v1, end_position t - p1)
     /\ end_velocity t - v1 = (v0 - v1) + 0.5 * delta_s * (a0 + a1)
     /\ end_position t - p1
        = (p0 - p1) + v0 * delta_s + delta_s * delta_s * (a0 / 3 + a1 / 6))
  /\ (forall (this : LateralTrajectoryOptimizer) (n m : Z) (x g : list R)
             (new_x : bool) (i : nat),
        delta_s_ this = delta_s ->
        length g = (3 * num_of_points_ this)%nat ->
        (i + 1 < num_of_points_ this)%nat ->
        let N := num_of_points_ this in
        let g' := fst (eval_g this n x new_x m g) in
        load g' (N - 1 + i)
        = (d_prime_of this x i - d_prime_of this x (i + 1))
          + 0.5 * delta_s * (d_pprime_of this x i + d_pprime_of this x (i + 1))
        /\ load g' (2 * (N - 1) + i)
           = (d_of this x i - d_of this x (i + 1))
             + d_prime_of this x i * delta_s
             + delta_s * delta_s
               * (d_pprime_of this x i / 3 + d_pprime_of this x (i + 1) / 6)).
Proof.
  intros delta_s Hpos. assert (Hds : delta_s <> 0) by lra. split.
  - intros p0 v0 a0 p1 v1 a1 j t.
    pose proof (continuity_residuals_affine delta_s p0 v0 a0 p1 v1 a1 Hds)
      as Haff.
    change (continuity_residuals delta_s p0 v0 a0 p1 v1 a1)
      with (end_velocity t - v1, end_position t - p1) in Haff.
    injection Haff as Hv Hp. repeat split; assumption.
  - intros this n m x g new_x i Hthis Hg Hi N g'. subst g' N.
    rewrite eval_g_block2, eval_g_block3 by (try exact Hg; lia).
    rewrite Hthis, continuity_residuals_affine by exact Hds.
    unfold d_of, d_prime_of, d_pprime_of. cbn [fst snd].
    rewrite <- !Nat.add_assoc. split; reflexivity.
Qed.

(** C6 at the unit step: the states [(1, 2, 3)] and [(4, 5, 6)], and the
    two-station problem at [x = (1, 4, 2, 5, 3, 6)]. *)
Lemma continuity_residuals_closed_form_example :
  continuity_residuals 1 1 2 3 4 5 6
  = (2 - 5 + 0.5 * 1 * (3 + 6), 1 - 4 + 2 * 1 + 1 * 1 * (3 / 3 + 6 / 6))
  /\ load (fst (eval_g two_stations 6 [1; 4; 2; 5; 3; 6] true 6
                  [0; 0; 0; 0; 0; 0])) 1
     = 2 - 5 + 0.5 * 1 * (3 + 6)
  /\ load (fst (eval_g two_stations 6 [1; 4; 2; 5; 3; 6] true 6
                  [0; 0; 0; 0; 0; 0])) 2
     = 1 - 4 + 2 * 1 + 1 * 1 * (3 / 3 + 6 / 6).
Proof.
  destruct (continuity_residuals_closed_form 1 ltac:(lra)) as [Hbody Hrows].
  split.
  - destruct (Hbody 1 2 3 4 5 6) as (Hres & Hv & Hp).
    rewrite Hres, Hv, Hp. reflexivity.
  - exact (Hrows two_stations 6%Z 6%Z [1; 4; 2; 5; 3; 6] [0; 0; 0; 0; 0; 0]
             true 0%nat eq_refl eq_refl ltac:(simpl; lia)).
Defined.

(** ** The constraint Jacobian: counters and independence of [x] *)

(** Number of Jacobian entries: two, four and five per station pair, and
    three for the initial state. *)
Lemma jac_structure_count (this : LateralTrajectoryOptimizer)
    (iRow0 jCol0 : list Z) :
  nz_index (jac_structure this iRow0 jCol0)
  = (11 * Nat.pred (num_of_points_ this) + 3)%nat.
Proof.
  unfold jac_structure, for_pairs. cbn [put_entry nz_index].
  rewrite (for_range_count nz_index 5) by reflexivity.
  rewrite (for_range_count nz_index 4) by reflexivity.
  rewrite (for_range_count nz_index 2) by reflexivity.
  cbn [nz_index]. lia.
Qed.

Lemma jac_values_count (this : LateralTrajectoryOptimizer) (x : list R)
    (new_x : bool) (values : list R) :
  fst (jac_values this x new_x values)
  = (11 * Nat.pred (num_of_points_ this) + 3)%nat.
Proof.
  unfold jac_values, for_pairs.
  rewrite (for_range_count fst 1) by reflexivity.
  rewrite (for_range_count fst 5) by reflexivity.
  rewrite (for_range_count fst 4) by reflexivity.
  rewrite (for_range_count fst 2) by reflexivity.
  cbn [fst]. lia.
Qed.

(** [eval_jac_g] with its two leading checks made explicit. *)
Lemma eval_jac_g_checked (this : LateralTrajectoryOptimizer) (n m nele_jac : Z)
    (x : list R) (new_x : bool) (iRow0 jCol0 : list Z)
    (values : option (list R)) :
  eval_jac_g this n x new_x m nele_jac iRow0 jCol0 values
  = if ((size_of_int n =? Z.of_nat (num_of_points_ this * 3))%Z
        && (size_of_int m =? Z.of_nat (num_of_points_ this * 3))%Z)%bool
    then
      match values with
      | None =>
          let c := jac_structure this iRow0 jCol0 in
          Done {| jac_this := set_nnz_jac_g this (nz_index c);
                  jac_iRow := iRow c; jac_jCol := jCol c;
                  jac_vals := None; jac_ret := true |}
      | Some values =>
          let c := jac_values this x new_x values in
          if (fst c =? nnz_jac_g_ this)%nat
          then Done {| jac_this := this;
                       jac_iRow := iRow0; jac_jCol := jCol0;
                       jac_vals := Some (snd c); jac_ret := true |}
          else Fatal
      end
    else Fatal.
Proof.
  unfold eval_jac_g, CHECK_EQ_size, CHECK.
  destruct (size_of_int n =? _)%Z; [|reflexivity].
  destruct (size_of_int m =? _)%Z; [|reflexivity].
  destruct values as [values|]; [|reflexivity].
  cbv zeta.
  destruct (fst (jac_values this x new_x values) =? nnz_jac_g_ this)%nat;
    reflexivity.
Qed.

(** ** The entries of block 1 of the Jacobian, for any number of stations *)

Lemma cursor_extends_refl (c : jac_cursor) : cursor_extends c c.
Proof. unfold cursor_extends. auto. Qed.

Lemma cursor_extends_trans (c1 c2 c3 : jac_cursor) :
  cursor_extends c1 c2 -> cursor_extends c2 c3 -> cursor_extends c1 c3.
Proof.
  intros (Hnz12 & Hr12 & Hc12 & H12) (Hnz23 & Hr23 & Hc23 & H23).
  split; [lia|]. split; [congruence|]. split; [congruence|].
  intros j Hj. destruct (H12 j Hj) as [<- <-]. apply H23. lia.
Qed.

Lemma cursor_extends_put_entry (col : nat) (c : jac_cursor) :
  cursor_extends c (put_entry col c).
Proof.
  unfold cursor_extends, put_entry. cbn [nz_index iRow jCol].
  rewrite !length_store. split; [lia|]. split; [reflexivity|].
  split; [reflexivity|]. intros j Hj.
  rewrite !nth_store_ne by lia. split; reflexivity.
Qed.

Lemma cursor_extends_next_constraint (c : jac_cursor) :
  cursor_extends c (next_constraint c).
Proof.
  unfold cursor_extends, next_constraint. cbn [nz_index iRow jCol]. auto.
Qed.

Lemma values_extend_refl (c : nat * list R) : values_extend c c.
Proof. unfold values_extend. auto. Qed.

Lemma values_extend_trans (c1 c2 c3 : nat * list R) :
  values_extend c1 c2 -> values_extend c2 c3 -> values_extend c1 c3.
Proof.
  intros (Hnz12 & Hl12 & H12) (Hnz23 & Hl23 & H23).
  split; [lia|]. split; [congruence|].
  intros j Hj. rewrite <- (H12 j Hj). apply H23. lia.
Qed.

Lemma values_extend_put_value (v : R) (c : nat * list R) :
  values_extend c (put_value v c).
Proof.
  unfold values_extend, put_value. cbn [fst snd].
  rewrite length_store. split; [lia|]. split; [reflexivity|].
  intros j Hj. apply load_store_ne. lia.
Qed.

Create HintDb extends.

#[local] Hint Resolve cursor_extends_refl cursor_extends_put_entry
  cursor_extends_next_constraint values_extend_refl values_extend_put_value
  : extends.

Ltac extends_step :=
  first [ eapply cursor_extends_trans; [|solve [eauto with extends]]
        | eapply values_extend_trans; [|solve [eauto with extends]] ].

Section JacobianBlock1.

Variable this : LateralTrajectoryOptimizer.

Local Abbreviation N := (num_of_points_ this).

(** The cursor after the first loop of the structure phase. *)
Lemma jac_structure_block1_loop (iRow0 jCol0 : list Z) (k : nat) :
  (2 * k <= length iRow0)%nat -> (2 * k <= length jCol0)%nat ->
  let c := for_range 0 k (fun variable_index c =>
             next_constraint
               (put_entry (2 * N + variable_index + 1)
                  (put_entry (2 * N + variable_index) c)))
             {| nz_index := 0; constraint_index := 0;
                iRow := iRow0; jCol := jCol0 |} in
  nz_index c = (2 * k)%nat
  /\ constraint_index c = k
  /\ length (iRow c) = length iRow0
  /\ length (jCol c) = length jCol0
  /\ forall i, (i < k)%nat ->
       nth (2 * i) (iRow c) 0%Z = Z.of_nat i
       /\ nth (2 * i) (jCol c) 0%Z = Z.of_nat (2 * N + i)
       /\ nth (2 * i + 1) (iRow c) 0%Z = Z.of_nat i
       /\ nth (2 * i + 1) (jCol c) 0%Z = Z.of_nat (2 * N + i + 1).
Proof.
  intros HiRow HjCol. cbv zeta.
  apply (for_range_invariant
           (fun q c =>
              (q <= k)%nat ->
              nz_index c = (2 * q)%nat
              /\ constraint_index c = q
              /\ length (iRow c) = length iRow0
              /\ length (jCol c) = length jCol0
              /\ forall i, (i < q)%nat ->
                   nth (2 * i) (iRow c) 0%Z = Z.of_nat i
                   /\ nth (2 * i) (jCol c) 0%Z = Z.of_nat (2 * N + i)
                   /\ nth (2 * i + 1) (iRow c) 0%Z = Z.of_nat i
                   /\ nth (2 * i + 1) (jCol c) 0%Z
                      = Z.of_nat (2 * N + i + 1))
           0 k); [lia| | |lia].
  - intros _. cbn [nz_index constraint_index iRow jCol].
    repeat split; try reflexivity; lia.
  - intros q c Hq IH Hle. destruct IH as (Hnz & Hci & Hlr & Hlc & Hent); [lia|].
    unfold next_constraint, put_entry.
    cbn [nz_index constraint_index iRow jCol].
    rewrite !length_store, Hnz, Hci.
    split; [lia|]. split; [reflexivity|]. split; [exact Hlr|].
    split; [exact Hlc|]. intros i Hi. rewrite !nth_store.
    rewrite !length_store, Hlr, Hlc.
    destruct (Nat.eq_dec i q) as [->|Hne].
    + repeat case_decide; try lia; repeat split; reflexivity.
    + destruct (Hent i ltac:(lia)) as (H1 & H2 & H3 & H4).
      repeat case_decide; try lia; repeat split; assumption.
Qed.

(** The first [2(N-1)] index pairs that the structure phase leaves. *)
Lemma jac_structure_block1 (iRow0 jCol0 : list Z) (i : nat) :
  (2 * Nat.pred N <= length iRow0)%nat ->
  (2 * Nat.pred N <= length jCol0)%nat ->
  (i + 1 < N)%nat ->
  let c := jac_structure this iRow0 jCol0 in
  nth (2 * i) (iRow c) 0%Z = Z.of_nat i
  /\ nth (2 * i) (jCol c) 0%Z = Z.of_nat (2 * N + i)
  /\ nth (2 * i + 1) (iRow c) 0%Z = Z.of_nat i
  /\ nth (2 * i + 1) (jCol c) 0%Z = Z.of_nat (2 * N + i + 1).
Proof.
  intros HiRow HjCol Hi c.
  pose proof (jac_structure_block1_loop iRow0 jCol0 (Nat.pred N) HiRow HjCol)
    as Hloop. cbv zeta in Hloop.
  set (c1 := for_range 0 (Nat.pred N) _ _) in Hloop.
  destruct Hloop as (Hnz & _ & _ & _ & Hent).
  assert (Hext : cursor_extends c1 c).
  { subst c. unfold jac_structure, for_pairs. fold c1.
    do 3 extends_step.
    eapply cursor_extends_trans;
      [|apply (for_range_preserves cursor_extends);
        [apply cursor_extends_refl|apply cursor_extends_trans|]].
    - apply (for_range_preserves cursor_extends);
        [apply cursor_extends_refl|apply cursor_extends_trans|].
      intros q t. do 5 extends_step. apply cursor_extends_refl.
    - intros q t. do 6 extends_step. apply cursor_extends_refl. }
  destruct Hext as (_ & _ & _ & Hsame).
  destruct (Hsame (2 * i)%nat ltac:(lia)) as [-> ->].
  destruct (Hsame (2 * i + 1)%nat ltac:(lia)) as [-> ->].
  apply Hent. lia.
Qed.

End JacobianBlock1.

Section JacobianBlock1Values.

Variable this : LateralTrajectoryOptimizer.

Local Abbreviation N := (num_of_points_ this).

(** The counter and the buffer after the first loop of the value phase. *)
Lemma jac_values_block1_loop (buf : list R) (k : nat) :
  (2 * k <= length buf)%nat ->
  let c := for_range 0 k (fun variable_index c =>
             put_value (-1) (put_value 1 c)) (0%nat, buf) in
  fst c = (2 * k)%nat
  /\ length (snd c) = length buf
  /\ forall i, (i < k)%nat ->
       load (snd c) (2 * i) = 1 /\ load (snd c) (2 * i + 1) = -1.
Proof.
  intros Hbuf. cbv zeta.
  apply (for_range_invariant
           (fun q c =>
              (q <= k)%nat ->
              fst c = (2 * q)%nat
              /\ length (snd c) = length buf
              /\ forall i, (i < q)%nat ->
                   load (snd c) (2 * i) = 1 /\ load (snd c) (2 * i + 1) = -1)
           0 k); [lia| | |lia].
  - intros _. cbn [fst snd]. repeat split; try reflexivity; lia.
  - intros q c Hq IH Hle. destruct IH as (Hnz & Hlen & Hent); [lia|].
    unfold put_value. cbn [fst snd]. rewrite !length_store, Hnz.
    split; [lia|]. split; [exact Hlen|]. intros i Hi.
    unfold load. rewrite !nth_store. rewrite !length_store, Hlen.
    destruct (Nat.eq_dec i q) as [->|Hne].
    + repeat case_decide; try lia; split; reflexivity.
    + destruct (Hent i ltac:(lia)) as (H1 & H2). unfold load in H1, H2.
      repeat case_decide; try lia; split; assumption.
Qed.

(** The first [2(N-1)] values that the value phase leaves. *)
Lemma jac_values_block1 (x : list R) (new_x : bool) (values : list R)
    (i : nat) :
  (2 * Nat.pred N <= length values)%nat ->
  (i + 1 < N)%nat ->
  let c := jac_values this x new_x values in
  load (snd c) (2 * i) = 1 /\ load (snd c) (2 * i + 1) = -1.
Proof.
  intros Hvalues Hi c.
  pose proof (jac_values_block1_loop (fill (nnz_jac_g_ this) 0 values)
                (Nat.pred N)) as Hloop.
  rewrite length_fill in Hloop. specialize (Hloop Hvalues).
  cbv zeta in Hloop.
  set (c1 := for_range 0 (Nat.pred N) _ _) in Hloop.
  destruct Hloop as (Hnz & _ & Hent).
  assert (Hext : values_extend c1 c).
  { subst c. unfold jac_values, for_pairs. fold c1.
    eapply values_extend_trans;
      [|apply (for_range_preserves values_extend);
        [apply values_extend_refl|apply values_extend_trans|]].
    - eapply values_extend_trans;
        [|apply (for_range_preserves values_extend);
          [apply values_extend_refl|apply values_extend_trans|]].
      + apply (for_range_preserves values_extend);
          [apply values_extend_refl|apply values_extend_trans|].
        intros q t. do 4 extends_step. apply values_extend_refl.
      + intros q t. do 5 extends_step. apply values_extend_refl.
    - intros q t. apply values_extend_put_value. }
  destruct Hext as (_ & _ & Hsame).
  rewrite (Hsame (2 * i)%nat), (Hsame (2 * i + 1)%nat) by lia.
  apply Hent. lia.
Qed.

End JacobianBlock1Values.

(** ** The constraint Jacobian against the residuals *)

(** Row [i] of [eval_g], [i + 1 < N], has the partial derivative [-1] with
    respect to [d''_i] and [+1] with respect to [d''_{i+1}]. *)
Lemma eval_g_block1_partials (this : LateralTrajectoryOptimizer) (n m : Z)
    (g x : list R) (i : nat) :
  let N := num_of_points_ this in
  length g = (3 * N)%nat -> length x = (3 * N)%nat -> (i + 1 < N)%nat ->
  eval_g_partial this n m g x i (2 * N + i) (-1)
  /\ eval_g_partial this n m g x i (2 * N + i + 1) 1.
Proof.
  intros N Hg Hx Hi. subst N. unfold eval_g_partial. split.
  - apply derivable_pt_lim_affine
      with (b := load x (2 * num_of_points_ this + i + 1)).
    intros t. rewrite eval_g_block1 by (try exact Hg; lia).
    rewrite !load_store. repeat case_decide; try lia. lra.
  - apply derivable_pt_lim_affine
      with (b := - load x (2 * num_of_points_ this + i)).
    intros t. rewrite eval_g_block1 by (try exact Hg; lia).
    rewrite !load_store. repeat case_decide; try lia. lra.
Qed.

(** For any number of stations: once both phases of [eval_jac_g] have run,
    the triplets [2i] and [2i+1] are [(i, 2N+i, +1)] and [(i, 2N+i+1, -1)],
    the coefficients that the specification lists for block-1 row [i], and
    they are the negated partial derivatives of row [i] of [eval_g]. *)
Lemma eval_jac_g_block1_negated
    (this : LateralTrajectoryOptimizer) (n m nele_jac : Z)
    (x g : list R) (new_x : bool) (iRow0 jCol0 : list Z) (values : list R)
    (r0 r1 : jac_result) (vals : list R) (i : nat) :
  let N := num_of_points_ this in
  (2 * Nat.pred N <= length iRow0)%nat ->
  (2 * Nat.pred N <= length jCol0)%nat ->
  (2 * Nat.pred N <= length values)%nat ->
  length g = (3 * N)%nat -> length x = (3 * N)%nat ->
  (i + 1 < N)%nat ->
  eval_jac_g this n x new_x m nele_jac iRow0 jCol0 None = Done r0 ->
  eval_jac_g (jac_this r0) n x new_x m nele_jac (jac_iRow r0) (jac_jCol r0)
    (Some values) = Done r1 ->
  jac_vals r1 = Some vals ->
  (nth (2 * i) (jac_iRow r1) 0%Z = Z.of_nat i
   /\ nth (2 * i) (jac_jCol r1) 0%Z = Z.of_nat (2 * N + i)
   /\ load vals (2 * i) = 1
   /\ eval_g_partial this n m g x i (2 * N + i) (-1))
  /\ (nth (2 * i + 1) (jac_iRow r1) 0%Z = Z.of_nat i
      /\ nth (2 * i + 1) (jac_jCol r1) 0%Z = Z.of_nat (2 * N + i + 1)
      /\ load vals (2 * i + 1) = -1
      /\ eval_g_partial this n m g x i (2 * N + i + 1) 1).
Proof.
  intros N HiRow HjCol Hvalues Hg Hx Hi Hstructure Hvalue Hvals. subst N.
  rewrite eval_jac_g_checked in Hstructure.
  destruct (_ && _)%bool in Hstructure; [|discriminate].
  cbv zeta in Hstructure. injection Hstructure as <-.
  rewrite eval_jac_g_checked in Hvalue.
  cbn [jac_this jac_iRow jac_jCol set_nnz_jac_g num_of_points_ nnz_jac_g_]
    in Hvalue.
  destruct (_ && _)%bool in Hvalue; [|discriminate].
  cbv zeta in Hvalue. destruct (_ =? _)%nat in Hvalue; [|discriminate].
  injection Hvalue as <-. cbn [jac_vals] in Hvals. injection Hvals as <-.
  cbn [jac_iRow jac_jCol].
  destruct (jac_structure_block1 this iRow0 jCol0 i HiRow HjCol Hi)
    as (Hr0 & Hc0 & Hr1 & Hc1).
  destruct (jac_values_block1
              (set_nnz_jac_g this (nz_index (jac_structure this iRow0 jCol0)))
              x new_x values i Hvalues Hi) as (Hv0 & Hv1).
  destruct (eval_g_block1_partials this n m g x i Hg Hx Hi) as (Hd0 & Hd1).
  repeat split; assumption.
Qed.

(** C1 at a failing input: the two-station problem with unit step, at any
    decision vector.  The structure and the value phase of [eval_jac_g]
    yield fourteen triplets.  For the block-1 row [0] the coefficient at
    column [4] (that of [d''_0]) is [+1] and the one at column [5] (that of
    [d''_1]) is [-1], but row [0] of [eval_g] is [d''_1 - d''_0], whose
    partial derivatives are [-1] and [+1]: the coefficients are the negated
    derivatives.  The three initial-state entries all carry row [3], so rows
    [4] and [5], whose residuals are [d'_0 - d_prime_init_] and
    [d''_0 - d_pprime_init_], have no coefficient. *)
Theorem eval_jac_g_differs_from_derivative_of_eval_g :
  forall x0 x1 x2 x3 x4 x5 : R,
  let x := [x0; x1; x2; x3; x4; x5] in
  let g := [0; 0; 0; 0; 0; 0] in
  let iRow0 := repeat 0%Z 14 in
  let jCol0 := repeat 0%Z 14 in
  let values0 := repeat 0 14 in
  let rows := [0; 0; 1; 1; 1; 1; 2; 2; 2; 2; 2; 3; 3; 3]%Z in
  let cols := [4; 5; 2; 3; 4; 5; 0; 1; 2; 4; 5; 0; 2; 4]%Z in
  let vals := [1; -1; 1; -1; 0.5 * 1; 0.5 * 1;
               1; -1; 1; 1 * 1 / 3; 1 * 1 / 6; 1; 1; 1] in
  let this' := set_nnz_jac_g two_stations 14 in
  eval_jac_g two_stations 6 x true 6 14 iRow0 jCol0 None
  = Done {| jac_this := this'; jac_iRow := rows; jac_jCol := cols;
            jac_vals := None; jac_ret := true |}
  /\ eval_jac_g this' 6 x true 6 14 rows cols (Some values0)
     = Done {| jac_this := this'; jac_iRow := rows; jac_jCol := cols;
               jac_vals := Some vals; jac_ret := true |}
  /\ (coefficient rows cols vals 0 4 = 1
      /\ eval_g_partial two_stations 6 6 g x 0 4 (-1)
      /\ ~ eval_g_partial two_stations 6 6 g x 0 4
             (coefficient rows cols vals 0 4))
  /\ (coefficient rows cols vals 0 5 = -1
      /\ eval_g_partial two_stations 6 6 g x 0 5 1
      /\ ~ eval_g_partial two_stations 6 6 g x 0 5
             (coefficient rows cols vals 0 5))
  /\ (coefficient rows cols vals 4 2 = 0
      /\ eval_g_partial two_stations 6 6 g x 4 2 1
      /\ coefficient rows cols vals 3 2 = 1
      /\ eval_g_partial two_stations 6 6 g x 3 2 0)
  /\ (coefficient rows cols vals 5 4 = 0
      /\ eval_g_partial two_stations 6 6 g x 5 4 1
      /\ coefficient rows cols vals 3 4 = 1
      /\ eval_g_partial two_stations 6 6 g x 3 4 0).
Proof.
  intros x0 x1 x2 x3 x4 x5 x g iRow0 jCol0 values0 rows cols vals this'.
  assert (Hrow0_4 : eval_g_partial two_stations 6 6 g x 0 4 (-1)).
  { apply derivable_pt_lim_affine with (b := x5). intros t. cbn. lra. }
  assert (Hrow0_5 : eval_g_partial two_stations 6 6 g x 0 5 1).
  { apply derivable_pt_lim_affine with (b := - x4). intros t. cbn. lra. }
  assert (Hcoef0_4 : coefficient rows cols vals 0 4 = 1) by (cbn; lra).
  assert (Hcoef0_5 : coefficient rows cols vals 0 5 = -1) by (cbn; lra).
  split; [|split; [|split; [|split; [|split]]]].
  - rewrite eval_jac_g_checked. reflexivity.
  - rewrite eval_jac_g_checked. reflexivity.
  - split; [exact Hcoef0_4|]. split; [exact Hrow0_4|].
    rewrite Hcoef0_4. intros Hone.
    pose proof (uniqueness_limite _ _ _ _ Hrow0_4 Hone). lra.
  - split; [exact Hcoef0_5|]. split; [exact Hrow0_5|].
    rewrite Hcoef0_5. intros Hminus.
    pose proof (uniqueness_limite _ _ _ _ Hrow0_5 Hminus). lra.
  - split; [cbn; lra|]. split; [|split; [cbn; lra|]].
    + apply derivable_pt_lim_affine with (b := 0). intros t. cbn. lra.
    + apply derivable_pt_lim_affine with (b := x0 - 0). intros t. cbn. lra.
  - split; [cbn; lra|]. split; [|split; [cbn; lra|]].
    + apply derivable_pt_lim_affine with (b := 0). intros t. cbn. lra.
    + apply derivable_pt_lim_affine with (b := x0 - 0). intros t. cbn. lra.
Qed.

(** ** The Hessian *)

Section EvalH.

Variable this : LateralTrajectoryOptimizer.
Variables (n m nele_hess : Z) (x lambda : list R) (new_x new_lambda : bool).
Variable obj_factor : R.
Variables iRow0 jCol0 : list Z.

Local Abbreviation N := (num_of_points_ this).

Lemma eval_h_structure_rows :
  hess_iRow (eval_h this n x new_x obj_factor m lambda new_lambda nele_hess
               iRow0 jCol0 None)
  = for_range 0 (3 * N) (fun i buf => store (0 + i) (Z.of_nat i) buf) iRow0.
Proof.
  unfold eval_h. cbn [hess_iRow].
  apply (for_range_proj fst). intros i t. reflexivity.
Qed.

Lemma eval_h_structure_cols :
  hess_jCol (eval_h this n x new_x obj_factor m lambda new_lambda nele_hess
               iRow0 jCol0 None)
  = for_range 0 (3 * N) (fun i buf => store (0 + i) (Z.of_nat i) buf) jCol0.
Proof.
  unfold eval_h. cbn [hess_jCol].
  apply (for_range_proj snd). intros i t. reflexivity.
Qed.

(** The structure phase writes the diagonal positions [(i, i)], [i < 3N]. *)
Lemma eval_h_structure_diagonal (i : nat) :
  length iRow0 = (3 * N)%nat -> length jCol0 = (3 * N)%nat ->
  (i < 3 * N)%nat ->
  let r := eval_h this n x new_x obj_factor m lambda new_lambda nele_hess
             iRow0 jCol0 None in
  nth i (hess_iRow r) 0%Z = Z.of_nat i /\ nth i (hess_jCol r) 0%Z = Z.of_nat i.
Proof.
  intros HiRow HjCol Hi r. subst r.
  rewrite eval_h_structure_rows, eval_h_structure_cols.
  rewrite !nth_for_range_store by lia.
  rewrite !decide_True by lia. split; f_equal; lia.
Qed.

(** The value phase writes [4] on the [d] block and [2] on the two other
    blocks. *)
Lemma eval_h_values (values : list R) :
  length values = (3 * N)%nat ->
  exists vals : list R,
    hess_vals (eval_h this n x new_x obj_factor m lambda new_lambda nele_hess
                 iRow0 jCol0 (Some values)) = Some vals
    /\ length vals = (3 * N)%nat
    /\ (forall i, (i < N)%nat -> load vals i = 4)
    /\ (forall i, (N <= i < 3 * N)%nat -> load vals i = 2).
Proof.
  intros Hlen. unfold eval_h. cbn [hess_vals]. eexists. split; [reflexivity|].
  split; [|split].
  - rewrite !(length_for_range_store (fun i => i)). exact Hlen.
  - intros i Hi. unfold load.
    rewrite (nth_for_range_store 0 0 (fun _ => 2))
      by (rewrite (length_for_range_store (fun i => i)); lia).
    rewrite decide_False by lia.
    rewrite (nth_for_range_store 0 0 (fun _ => 4)) by lia.
    rewrite decide_True by lia. reflexivity.
  - intros i Hi. unfold load.
    rewrite (nth_for_range_store 0 0 (fun _ => 2))
      by (rewrite (length_for_range_store (fun i => i)); lia).
    rewrite decide_True by lia. reflexivity.
Qed.

End EvalH.

(** C3, as stated, fails: with [obj_factor = 2] the first Hessian value of
    the two-station problem is [4], not [4 * 2]. *)
Lemma eval_h_value_not_scaled :
  hess_vals (eval_h two_stations 6 [0; 0; 0; 0; 0; 0] true 2 6
               [0; 0; 0; 0; 0; 0] true 6 [] [] (Some [0; 0; 0; 0; 0; 0]))
  = Some [4; 4; 2; 2; 2; 2]
  /\ load [4; 4; 2; 2; 2; 2] 0 <> 4 * 2.
Proof.
  split; [reflexivity|]. unfold load. simpl. lra.
Qed.

(** C3, amended.  For every [x], [obj_factor] and [lambda], [get_nlp_info]
    reports [3N] Hessian entries, the structure phase of [eval_h] places
    them on the diagonal positions [(i, i)], and the value phase writes the
    constants [4] on the [d] block [[0, N)] and [2] on the [d'] and [d'']
    blocks [[N, 3N)]: the values do not depend on [obj_factor] (they are
    [4 * obj_factor] and [2 * obj_factor] when [obj_factor = 1]). *)
Theorem eval_h_constant_diagonal :
  forall (this : LateralTrajectoryOptimizer) (n m nele_hess : Z)
         (x lambda : list R) (new_x new_lambda : bool) (obj_factor : R)
         (iRow0 jCol0 : list Z) (values : list R),
  let N := num_of_points_ this in
  length iRow0 = (3 * N)%nat ->
  length jCol0 = (3 * N)%nat ->
  length values = (3 * N)%nat ->
  (forall nnz_jac_g : Z,
     info_nnz_h_lag (fst (get_nlp_info this nnz_jac_g)) = Z.of_nat (3 * N))
  /\ (let r := eval_h this n x new_x obj_factor m lambda new_lambda nele_hess
                 iRow0 jCol0 None in
      length (hess_iRow r) = (3 * N)%nat
      /\ length (hess_jCol r) = (3 * N)%nat
      /\ forall i, (i < 3 * N)%nat ->
           nth i (hess_iRow r) 0%Z = Z.of_nat i
           /\ nth i (hess_jCol r) 0%Z = Z.of_nat i)
  /\ (exists vals : list R,
        hess_vals (eval_h this n x new_x obj_factor m lambda new_lambda
                     nele_hess iRow0 jCol0 (Some values)) = Some vals
        /\ length vals = (3 * N)%nat
        /\ (forall i, (i < N)%nat -> load vals i = 4)
        /\ (forall i, (N <= i < 3 * N)%nat -> load vals i = 2)).
Proof.
  intros this n m nele_hess x lambda new_x new_lambda obj_factor iRow0 jCol0
    values N HiRow HjCol Hvalues.
  split; [|split].
  - intros nnz_jac_g. unfold get_nlp_info. cbn. f_equal. lia.
  - cbv zeta. rewrite eval_h_structure_rows, eval_h_structure_cols.
    rewrite !(length_for_range_store (fun i => (0 + i)%nat)).
    split; [exact HiRow|]. split; [exact HjCol|].
    intros i Hi.
    rewrite <- eval_h_structure_rows
      with (n := n) (m := m) (nele_hess := nele_hess) (x := x)
           (lambda := lambda) (new_x := new_x) (new_lambda := new_lambda)
           (obj_factor := obj_factor) (jCol0 := jCol0).
    rewrite <- eval_h_structure_cols
      with (n := n) (m := m) (nele_hess := nele_hess) (x := x)
           (lambda := lambda) (new_x := new_x) (new_lambda := new_lambda)
           (obj_factor := obj_factor) (iRow0 := iRow0).
    apply eval_h_structure_diagonal; assumption.
  - apply eval_h_values. exact Hvalues.
Qed.

(** C3 amended, on the two-station problem with [obj_factor = 2]. *)
Lemma eval_h_constant_diagonal_example :
  exists vals : list R,
    hess_vals (eval_h two_stations 6 [0; 0; 0; 0; 0; 0] true 2 6
                 [0; 0; 0; 0; 0; 0] true 6 [0; 0; 0; 0; 0; 0]%Z
                 [0; 0; 0; 0; 0; 0]%Z (Some [0; 0; 0; 0; 0; 0])) = Some vals
    /\ length vals = 6%nat
    /\ (forall i, (i < 2)%nat -> load vals i = 4)
    /\ (forall i, (2 <= i < 6)%nat -> load vals i = 2).
Proof.
  exact (proj2 (proj2
    (eval_h_constant_diagonal two_stations 6 6 6 [0; 0; 0; 0; 0; 0]
       [0; 0; 0; 0; 0; 0] true true 2 [0; 0; 0; 0; 0; 0]%Z
       [0; 0; 0; 0; 0; 0]%Z [0; 0; 0; 0; 0; 0]
       eq_refl eq_refl eq_refl))).
Defined.

(** ** Finalization *)

(** What [finalize_solution] does: it appends [N - 1] copies of one and the
    same segment and changes nothing else. *)
Lemma finalize_solution_appends (this : LateralTrajectoryOptimizer)
    (status : SolverReturn) (n m : Z) (x z_L z_U g lambda : list R)
    (obj_value : R) :
  finalize_solution this status n x z_L z_U m g lambda obj_value
  = set_opt_piecewise_trajectory
      {| initial_state := initial_state (opt_piecewise_trajectory_ this);
         segments := segments (opt_piecewise_trajectory_ this)
                     ++ repeat (finalize_code_segment this x)
                          (num_of_points_ this - 1) |}
      this.
Proof.
  unfold finalize_solution.
  destruct (Nat.le_gt_cases 1 (num_of_points_ this)) as [HN|HN].
  - apply (for_range_invariant
             (fun i t =>
                t = set_opt_piecewise_trajectory
                      {| initial_state :=
                           initial_state (opt_piecewise_trajectory_ this);
                         segments :=
                           segments (opt_piecewise_trajectory_ this)
                           ++ repeat (finalize_code_segment this x) (i - 1) |}
                      this)
             1 (num_of_points_ this) _ this HN).
    + simpl. rewrite app_nil_r. destruct this as [? ? ? ? ? ? ? ? ? ? ? ? ? []].
      reflexivity.
    + intros i t Hi ->.
      unfold set_opt_piecewise_trajectory, AppendSegment. cbn.
      rewrite <- app_assoc.
      change [((load x (num_of_points_ this * 2)
                - load x (size_sub (num_of_points_ this * 2) 1))
               / delta_s_ this, delta_s_ this)]
        with [finalize_code_segment this x].
      rewrite repeat_snoc.
      replace (S (i - 1)) with (i - 0)%nat by lia. reflexivity.
  - rewrite for_range_empty by lia.
    replace (num_of_points_ this - 1)%nat with 0%nat by lia.
    simpl. rewrite app_nil_r. destruct this as [? ? ? ? ? ? ? ? ? ? ? ? ? []].
    reflexivity.
Qed.

(** C2 at a failing input: two stations one unit apart and the terminal
    vector [d = (0, 0)], [d' = (0, 2)], [d'' = (0, 1)].  The specification
    asks for the single segment of jerk [(d''_1 - d''_0) / 1 = 1];
    [finalize_solution] appends the segment of jerk [(x[4] - x[3]) / 1], that
    is [(d''_0 - d'_1) / 1 = -2]. *)
Theorem finalize_solution_reads_wrong_samples :
  let x := [0; 0; 0; 2; 0; 1] in
  let this' := finalize_solution two_stations SUCCESS 6 x [] [] 6 [] [] 0 in
  segments (GetOptimalTrajectory this') = [((load x 4 - load x 3) / 1, 1)]
  /\ finalize_spec_segments two_stations x = [((load x 5 - load x 4) / 1, 1)]
  /\ segments (GetOptimalTrajectory this')
     <> segments (GetOptimalTrajectory two_stations)
        ++ finalize_spec_segments two_stations x.
Proof.
  cbn. repeat split.
  intros Heq. injection Heq as Hjerk. lra.
Qed.

(** C5, as stated, fails: after a terminal status of local infeasibility
    the result trajectory of the two-station problem holds a segment. *)
Lemma finalize_solution_populates_on_failure :
  LOCAL_INFEASIBILITY <> SUCCESS
  /\ segments (GetOptimalTrajectory two_stations) = []
  /\ segments (GetOptimalTrajectory
                 (finalize_solution two_stations LOCAL_INFEASIBILITY 6
                    [0; 0; 0; 0; 0; 0] [] [] 6 [] [] 0))
     <> [].
Proof.
  split; [discriminate|]. split; [reflexivity|]. cbn. discriminate.
Qed.

(** C5, amended.  [finalize_solution] does not read the terminal status:
    for every status it leaves the object that it leaves on [SUCCESS], with
    [N - 1] segments appended to the result trajectory and its initial state
    kept, which is what [GetOptimalTrajectory] then returns. *)
Theorem finalize_solution_ignores_status :
  forall (this : LateralTrajectoryOptimizer) (status : SolverReturn)
         (n m : Z) (x z_L z_U g lambda : list R) (obj_value : R),
  let this' := finalize_solution this status n x z_L z_U m g lambda obj_value in
  this' = finalize_solution this SUCCESS n x z_L z_U m g lambda obj_value
  /\ initial_state (GetOptimalTrajectory this')
     = initial_state (GetOptimalTrajectory this)
  /\ length (segments (GetOptimalTrajectory this'))
     = (length (segments (GetOptimalTrajectory this))
        + (num_of_points_ this - 1))%nat.
Proof.
  intros this status n m x z_L z_U g lambda obj_value this'. subst this'.
  split; [reflexivity|].
  rewrite finalize_solution_appends. unfold GetOptimalTrajectory. cbn.
  split; [reflexivity|]. rewrite length_app, repeat_length. reflexivity.
Qed.

(** * Further properties of the callbacks *)

(** ** Bounds: every entry, whatever the buffers held *)

Section BoundsEntries.

Variable this : LateralTrajectoryOptimizer.
Variables (n m : Z).

Local Abbreviation N := (num_of_points_ this).

(** Every entry of the four buffers that [get_bounds_info] leaves. *)
Lemma get_bounds_info_entries (b : bounds) (j : nat) :
  length (x_l b) = (3 * N)%nat -> length (x_u b) = (3 * N)%nat ->
  length (g_l b) = (3 * N)%nat -> length (g_u b) = (3 * N)%nat ->
  (j < 3 * N)%nat ->
  load (x_l (fst (get_bounds_info this n m b))) j
  = (if decide (j < N)%nat then fst (d_bound this j) else - 10)
  /\ load (x_u (fst (get_bounds_info this n m b))) j
     = (if decide (j < N)%nat then snd (d_bound this j) else 10)
  /\ load (g_l (fst (get_bounds_info this n m b))) j
     = (if decide (j + 1 < N)%nat
        then - d_ppprime_max_ this * delta_s_ this else 0)
  /\ load (g_u (fst (get_bounds_info this n m b))) j
     = (if decide (j + 1 < N)%nat
        then d_ppprime_max_ this * delta_s_ this else 0).
Proof.
  intros Hxl Hxu Hgl Hgu Hj. unfold load.
  rewrite get_bounds_info_x_l, get_bounds_info_x_u,
    get_bounds_info_g_l, get_bounds_info_g_u.
  rewrite size_sub_le by lia. rewrite !nth_store.
  rewrite !nth_for_range_store
    by (rewrite ?length_for_range_store; lia).
  rewrite !length_store, !length_for_range_store.
  repeat split; repeat case_decide; try lia; try reflexivity;
    rewrite Nat.sub_0_r; reflexivity.
Qed.


End BoundsEntries.




(** X2.  The bounds that [get_bounds_info] writes are ordered when its
    inputs are, each family on its own: if every corridor pair has its lower
    bound at most its upper bound then [x_l[j] <= x_u[j]] for every variable,
    whatever the jerk bound is; and if [d_ppprime_max_ * delta_s_] is not
    negative then [g_l[j] <= g_u[j]] for every constraint row, whatever the
    corridor is. *)
Theorem get_bounds_info_ordered :
  forall (this : LateralTrajectoryOptimizer) (n m : Z) (b : bounds),
  length (x_l b) = (3 * num_of_points_ this)%nat ->
  length (x_u b) = (3 * num_of_points_ this)%nat ->
  length (g_l b) = (3 * num_of_points_ this)%nat ->
  length (g_u b) = (3 * num_of_points_ this)%nat ->
  ((forall i, (i < num_of_points_ this)%nat ->
      fst (d_bound this i) <= snd (d_bound this i)) ->
   forall j, (j < 3 * num_of_points_ this)%nat ->
     load (x_l (fst (get_bounds_info this n m b))) j
     <= load (x_u (fst (get_bounds_info this n m b))) j)
  /\ (0 <= d_ppprime_max_ this * delta_s_ this ->
      forall j, (j < 3 * num_of_points_ this)%nat ->
        load (g_l (fst (get_bounds_info this n m b))) j
        <= load (g_u (fst (get_bounds_info this n m b))) j).
Proof.
  intros this n m b Hxl Hxu Hgl Hgu.
  split; [intros Hcorridor j Hj|intros Hjerk j Hj];
    destruct (get_bounds_info_entries this n m b j Hxl Hxu Hgl Hgu Hj)
      as (E1 & E2 & E3 & E4).
  - rewrite E1, E2. clear E1 E2 E3 E4. case_decide; [|lra].
    apply Hcorridor. assumption.
  - rewrite E3, E4. clear E1 E2 E3 E4. case_decide; lra.
Qed.

(** X2 on two two-station problems.  On the seeded one, whose corridor is
    [(-1, 1), (0, 4)] and whose jerk bound times the step is [6], both
    families are ordered; on a copy of it whose jerk bound is [-3], the
    variable bounds are ordered all the same. *)
Lemma get_bounds_info_ordered_example :
  let zeros := [0; 0; 0; 0; 0; 0] in
  let b := {| x_l := zeros; x_u := zeros; g_l := zeros; g_u := zeros |} in
  let negative :=
    init_members
      {| num_of_points_ := 0; num_of_variables_ := 0; delta_s_ := 0;
         d_bounds_ := []; w_d_ := 0; w_d_prime_ := 0; w_d_pprime_ := 0;
         w_d_obs_ := 0; d_init_ := 5; d_prime_init_ := 6;
         d_pprime_init_ := 7; d_ppprime_max_ := - 3; nnz_jac_g_ := 0;
         opt_piecewise_trajectory_ := PiecewiseJerkTrajectory1d_new 0 0 0 |}
      5 6 7 2 [(-1, 1); (0, 4)] in
  (load (x_l (fst (get_bounds_info two_stations_seeded 6 6 b))) 1
   <= load (x_u (fst (get_bounds_info two_stations_seeded 6 6 b))) 1
   /\ load (g_l (fst (get_bounds_info two_stations_seeded 6 6 b))) 0
      <= load (g_u (fst (get_bounds_info two_stations_seeded 6 6 b))) 0)
  /\ load (x_l (fst (get_bounds_info negative 6 6 b))) 1
     <= load (x_u (fst (get_bounds_info negative 6 6 b))) 1.
Proof.
  intros zeros b negative.
  assert (Hcorridor : forall this i,
            d_bounds_ this = [(-1, 1); (0, 4)] ->
            num_of_points_ this = 2%nat ->
            (i < num_of_points_ this)%nat ->
            fst (d_bound this i) <= snd (d_bound this i)).
  { intros this i Hbounds Hpoints Hi. unfold d_bound. rewrite Hbounds.
    rewrite Hpoints in Hi. destruct i as [|[|i]]; cbn; try lra. lia. }
  destruct (get_bounds_info_ordered two_stations_seeded 6 6 b
              eq_refl eq_refl eq_refl eq_refl) as [Hx Hg].
  destruct (get_bounds_info_ordered negative 6 6 b
              eq_refl eq_refl eq_refl eq_refl) as [Hx' _].
  split; [split|].
  - apply Hx; [intro i; apply Hcorridor; reflexivity|simpl; lia].
  - apply Hg; [cbn; lra|simpl; lia].
  - apply Hx'; [intro i; apply Hcorridor; reflexivity|simpl; lia].
Defined.

(** ** The starting point: when it is produced, and what it satisfies *)

(** A completed call passed the four checks and left the filled buffers. *)
Lemma get_starting_point_inv (this : LateralTrajectoryOptimizer) (n m : Z)
    (init_x init_z init_lambda : bool) (s s' : start_buffers) (ret : bool) :
  get_starting_point this n init_x init_z m init_lambda s = Done (s', ret) ->
  size_of_int n = Z.of_nat (num_of_points_ this * 3)
  /\ init_x = true /\ init_z = false /\ init_lambda = false
  /\ s' = starting_point_buffers this s /\ ret = false.
Proof.
  intros Hdone.
  destruct (Z.eq_dec (size_of_int n) (Z.of_nat (num_of_points_ this * 3)))
    as [Hn|Hn];
    [|rewrite get_starting_point_fatal in Hdone by (left; exact Hn);
      discriminate].
  destruct init_x;
    [|rewrite get_starting_point_fatal in Hdone by (right; left; reflexivity);
      discriminate].
  destruct init_z;
    [rewrite get_starting_point_fatal in Hdone
       by (right; right; left; reflexivity); discriminate|].
  destruct init_lambda;
    [rewrite get_starting_point_fatal in Hdone
       by (right; right; right; reflexivity); discriminate|].
  rewrite get_starting_point_done in Hdone by exact Hn.
  injection Hdone as <- <-. repeat split; assumption.
Qed.

(** X3.  [get_starting_point] aborts exactly when the size [n] is not [3N]
    or one of the flags differs from [init_x = true], [init_z = false],
    [init_lambda = false].  When it completes it returns [false], leaves
    the buffers [z_L], [z_U] and [lambda] as they were and keeps the size of
    [x]. *)
Theorem get_starting_point_outcome :
  forall (this : LateralTrajectoryOptimizer) (n m : Z)
         (init_x init_z init_lambda : bool) (s : start_buffers),
  (get_starting_point this n init_x init_z m init_lambda s = Fatal
   <-> (size_of_int n <> Z.of_nat (num_of_points_ this * 3)
        \/ init_x = false \/ init_z = true \/ init_lambda = true))
  /\ (forall (s' : start_buffers) (ret : bool),
        get_starting_point this n init_x init_z m init_lambda s
        = Done (s', ret) ->
        ret = false
        /\ start_z_L s' = start_z_L s
        /\ start_z_U s' = start_z_U s
        /\ start_lambda s' = start_lambda s
        /\ length (start_x s') = length (start_x s)).
Proof.
  intros this n m init_x init_z init_lambda s. split; [split|].
  - intros Hfatal.
    destruct (Z.eq_dec (size_of_int n) (Z.of_nat (num_of_points_ this * 3)))
      as [Hn|Hn]; [|left; exact Hn].
    destruct init_x; [|right; left; reflexivity].
    destruct init_z; [right; right; left; reflexivity|].
    destruct init_lambda; [right; right; right; reflexivity|].
    rewrite get_starting_point_done in Hfatal by exact Hn. discriminate.
  - apply get_starting_point_fatal.
  - intros s' ret Hdone.
    apply get_starting_point_inv in Hdone.
    destruct Hdone as (_ & _ & _ & _ & -> & ->).
    destruct (filled_duals this s) as (HzL & HzU & Hlambda).
    repeat split; try assumption.
    rewrite filled_x, !length_store, length_for_range_stores. reflexivity.
Qed.

(** X3 on the two-station problem: a request for a multiplier warm start
    aborts, and the plain request returns [false] and leaves [lambda]. *)
Lemma get_starting_point_outcome_example :
  let s := {| start_x := [7; 7; 7; 7; 7; 7]; start_z_L := [7];
              start_z_U := [7]; start_lambda := [7] |} in
  let s' := {| start_x := [5; 0; 6; 0; 7; 0]; start_z_L := [7];
               start_z_U := [7]; start_lambda := [7] |} in
  get_starting_point two_stations_seeded 6 true false 6 true s = Fatal
  /\ get_starting_point two_stations_seeded 6 true false 6 false s
     = Done (s', false)
  /\ start_lambda s' = start_lambda s.
Proof.
  cbv zeta.
  assert (Hdone : get_starting_point two_stations_seeded 6 true false 6 false
                    {| start_x := [7; 7; 7; 7; 7; 7]; start_z_L := [7];
                       start_z_U := [7]; start_lambda := [7] |}
                  = Done ({| start_x := [5; 0; 6; 0; 7; 0]; start_z_L := [7];
                             start_z_U := [7]; start_lambda := [7] |}, false))
    by (rewrite get_starting_point_done by reflexivity; reflexivity).
  split; [|split; [exact Hdone|]].
  - apply (proj1 (get_starting_point_outcome two_stations_seeded 6 6
                    true false true _)).
    right. right. right. reflexivity.
  - apply (proj2 (get_starting_point_outcome two_stations_seeded 6 6
                    true false false _) _ _ Hdone).
Defined.

(** X4.  With at least one station and an [x] of [3N] entries, the guess
    that [get_starting_point] writes is zero everywhere except at the
    indices [0], [N] and [2N], where it holds the members [d_init_],
    [d_prime_init_] and [d_pprime_init_]. *)
Theorem get_starting_point_guess :
  forall (this : LateralTrajectoryOptimizer) (n m : Z)
         (init_x init_z init_lambda : bool) (s s' : start_buffers)
         (ret : bool),
  (1 <= num_of_points_ this)%nat ->
  length (start_x s) = (3 * num_of_points_ this)%nat ->
  get_starting_point this n init_x init_z m init_lambda s = Done (s', ret) ->
  forall j, (j < 3 * num_of_points_ this)%nat ->
    load (start_x s') j
    = if decide (j = 0%nat) then d_init_ this
      else if decide (j = num_of_points_ this) then d_prime_init_ this
      else if decide (j = (2 * num_of_points_ this)%nat)
           then d_pprime_init_ this
      else 0.
Proof.
  intros this n m init_x init_z init_lambda s s' ret HN Hx Hdone j Hj.
  apply get_starting_point_inv in Hdone.
  destruct Hdone as (_ & _ & _ & _ & -> & _).
  apply filled_x_entries; assumption.
Qed.

(** X4 on the two-station problem over members [5], [6], [7]. *)
Lemma get_starting_point_guess_example :
  let s' := {| start_x := [5; 0; 6; 0; 7; 0]; start_z_L := [];
               start_z_U := []; start_lambda := [] |} in
  load (start_x s') 0 = d_init_ two_stations_seeded
  /\ load (start_x s') 1 = 0
  /\ load (start_x s') 2 = d_prime_init_ two_stations_seeded.
Proof.
  cbv zeta.
  assert (Hdone : get_starting_point two_stations_seeded 6 true false 6 false
                    {| start_x := [7; 7; 7; 7; 7; 7]; start_z_L := [];
                       start_z_U := []; start_lambda := [] |}
                  = Done ({| start_x := [5; 0; 6; 0; 7; 0]; start_z_L := [];
                             start_z_U := []; start_lambda := [] |}, false))
    by (rewrite get_starting_point_done by reflexivity; reflexivity).
  pose proof (get_starting_point_guess two_stations_seeded 6 6
                true false false
                {| start_x := [7; 7; 7; 7; 7; 7]; start_z_L := [];
                   start_z_U := []; start_lambda := [] |}
                _ _ ltac:(simpl; lia) eq_refl Hdone)
    as Hguess.
  split; [|split].
  - exact (Hguess 0%nat ltac:(simpl; lia)).
  - exact (Hguess 1%nat ltac:(simpl; lia)).
  - exact (Hguess 2%nat ltac:(simpl; lia)).
Defined.

(** X5.  The guess of [get_starting_point] satisfies the three
    initial-state equality constraints: the last three residuals that
    [eval_g] computes at it are zero. *)
Theorem starting_point_meets_initial_state_rows :
  forall (this : LateralTrajectoryOptimizer) (n m : Z)
         (init_x init_z init_lambda new_x : bool) (s s' : start_buffers)
         (ret : bool) (g : list R),
  (1 <= num_of_points_ this)%nat ->
  length (start_x s) = (3 * num_of_points_ this)%nat ->
  length g = (3 * num_of_points_ this)%nat ->
  get_starting_point this n init_x init_z m init_lambda s = Done (s', ret) ->
  let g' := fst (eval_g this n (start_x s') new_x m g) in
  load g' (3 * (num_of_points_ this - 1)) = 0
  /\ load g' (3 * (num_of_points_ this - 1) + 1) = 0
  /\ load g' (3 * (num_of_points_ this - 1) + 2) = 0.
Proof.
  intros this n m init_x init_z init_lambda new_x s s' ret g HN Hx Hg Hdone g'.
  subst g'.
  apply get_starting_point_inv in Hdone.
  destruct Hdone as (_ & _ & _ & _ & -> & _).
  destruct (eval_g_block4 this n m (start_x (starting_point_buffers this s))
              g new_x HN Hg) as (-> & -> & ->).
  rewrite !filled_x_entries by (try assumption; lia).
  repeat split; repeat case_decide; try lia; lra.
Qed.

(** X5 on the two-station problem over members [5], [6], [7]. *)
Lemma starting_point_meets_initial_state_rows_example :
  let g' := fst (eval_g two_stations_seeded 6 [5; 0; 6; 0; 7; 0] true 6
                   [0; 0; 0; 0; 0; 0]) in
  load g' 3 = 0 /\ load g' 4 = 0 /\ load g' 5 = 0.
Proof.
  assert (Hdone : get_starting_point two_stations_seeded 6 true false 6 false
                    {| start_x := [7; 7; 7; 7; 7; 7]; start_z_L := [];
                       start_z_U := []; start_lambda := [] |}
                  = Done ({| start_x := [5; 0; 6; 0; 7; 0]; start_z_L := [];
                             start_z_U := []; start_lambda := [] |}, false))
    by (rewrite get_starting_point_done by reflexivity; reflexivity).
  exact (starting_point_meets_initial_state_rows two_stations_seeded 6 6
           true false false true
           {| start_x := [7; 7; 7; 7; 7; 7]; start_z_L := [];
              start_z_U := []; start_lambda := [] |}
           _ _ [0; 0; 0; 0; 0; 0]
           ltac:(simpl; lia) eq_refl eq_refl Hdone).
Defined.

(** ** The residuals: every row, and the jerk box *)

(** Every row that [eval_g] leaves. *)
Lemma eval_g_rows (this : LateralTrajectoryOptimizer) (n m : Z)
    (x g : list R) (new_x : bool) (j : nat) :
  length g = (3 * num_of_points_ this)%nat ->
  (j < 3 * num_of_points_ this)%nat ->
  load (fst (eval_g this n x new_x m g)) j = residual_row this x j.
Proof.
  intros Hg Hj. assert (HN : (1 <= num_of_points_ this)%nat) by lia.
  unfold residual_row. cbv zeta. repeat case_decide.
  - apply eval_g_block1; [exact HN|exact Hg|lia].
  - replace j with (num_of_points_ this - 1 + (j - (num_of_points_ this - 1)))%nat
      at 1 by lia.
    apply eval_g_block2; [exact HN|exact Hg|lia].
  - replace j
      with (2 * (num_of_points_ this - 1)
            + (j - 2 * (num_of_points_ this - 1)))%nat at 1 by lia.
    apply eval_g_block3; [exact HN|exact Hg|lia].
  - subst j. apply eval_g_block4; assumption.
  - subst j. apply eval_g_block4; assumption.
  - replace j with (3 * (num_of_points_ this - 1) + 2)%nat by lia.
    apply eval_g_block4; assumption.
Qed.

(** X6.  [eval_g] writes every one of the [3N] residuals: on a buffer of
    [3N] entries its result depends neither on what the buffer held before
    nor on [n], [m] or [new_x], the buffer keeps its size and the callback
    returns [true]. *)
Theorem eval_g_overwrites_everything :
  forall (this : LateralTrajectoryOptimizer) (n1 n2 m1 m2 : Z)
         (x g1 g2 : list R) (new_x1 new_x2 : bool),
  length g1 = (3 * num_of_points_ this)%nat ->
  length g2 = (3 * num_of_points_ this)%nat ->
  eval_g this n1 x new_x1 m1 g1 = eval_g this n2 x new_x2 m2 g2
  /\ length (fst (eval_g this n1 x new_x1 m1 g1))
     = (3 * num_of_points_ this)%nat
  /\ snd (eval_g this n1 x new_x1 m1 g1) = true.
Proof.
  intros this n1 n2 m1 m2 x g1 g2 new_x1 new_x2 Hg1 Hg2.
  destruct (Nat.eq_dec (num_of_points_ this) 0%nat) as [Hzero|Hpos].
  - rewrite Hzero in Hg1, Hg2.
    destruct g1; [|discriminate]. destruct g2; [|discriminate].
    unfold eval_g, for_pairs. rewrite Hzero. cbn. repeat split.
  - assert (HN : (1 <= num_of_points_ this)%nat) by lia.
    assert (Hlen : forall n m g new_x,
               length g = (3 * num_of_points_ this)%nat ->
               length (fst (eval_g this n x new_x m g))
               = (3 * num_of_points_ this)%nat).
    { intros n m g new_x Hg. rewrite eval_g_length; assumption. }
    split; [|split; [apply Hlen; exact Hg1|reflexivity]].
    assert (Hfst : fst (eval_g this n1 x new_x1 m1 g1)
                   = fst (eval_g this n2 x new_x2 m2 g2)).
    { apply (nth_ext _ _ 0 0); [rewrite !Hlen by assumption; reflexivity|].
      intros j Hj. rewrite Hlen in Hj by assumption.
      change (load (fst (eval_g this n1 x new_x1 m1 g1)) j
              = load (fst (eval_g this n2 x new_x2 m2 g2)) j).
      rewrite !eval_g_rows by assumption. reflexivity. }
    unfold eval_g in *. cbn [fst] in Hfst. rewrite Hfst. reflexivity.
Qed.

(** X6 on the two-station problem. *)
Lemma eval_g_overwrites_everything_example :
  eval_g two_stations 6 [1; 4; 2; 5; 3; 6] true 6 [7; 7; 7; 7; 7; 7]
  = eval_g two_stations 0 [1; 4; 2; 5; 3; 6] false 0 [0; 0; 0; 0; 0; 0].
Proof.
  exact (proj1 (eval_g_overwrites_everything two_stations 6 0 6 0
                  [1; 4; 2; 5; 3; 6] [7; 7; 7; 7; 7; 7] [0; 0; 0; 0; 0; 0]
                  true false eq_refl eq_refl)).
Defined.

(** X7.  For a positive step length, row [i] of block 1 lies within the
    bounds that [get_bounds_info] gives that row exactly when the jerk
    implied for the station pair [(i, i+1)], the one the continuity rows of
    [eval_g] simulate, lies within [[-d_ppprime_max_, d_ppprime_max_]]. *)
Theorem block1_box_is_the_jerk_bound :
  forall (this : LateralTrajectoryOptimizer) (n m : Z) (x g : list R)
         (new_x : bool) (b : bounds) (i : nat),
  0 < delta_s_ this ->
  length (x_l b) = (3 * num_of_points_ this)%nat ->
  length (x_u b) = (3 * num_of_points_ this)%nat ->
  length (g_l b) = (3 * num_of_points_ this)%nat ->
  length (g_u b) = (3 * num_of_points_ this)%nat ->
  length g = (3 * num_of_points_ this)%nat ->
  (i + 1 < num_of_points_ this)%nat ->
  let b' := fst (get_bounds_info this n m b) in
  let g' := fst (eval_g this n x new_x m g) in
  (load (g_l b') i <= load g' i <= load (g_u b') i)
  <-> (- d_ppprime_max_ this <= implied_jerk this x i <= d_ppprime_max_ this).
Proof.
  intros this n m x g new_x b i Hds Hxl Hxu Hgl Hgu Hg Hi b' g'.
  subst b' g'.
  destruct (get_bounds_info_entries this n m b i Hxl Hxu Hgl Hgu ltac:(lia))
    as (_ & _ & -> & ->).
  rewrite eval_g_block1 by (try exact Hg; lia).
  rewrite !decide_True by exact Hi.
  unfold implied_jerk.
  set (D := load x (2 * num_of_points_ this + i + 1)
            - load x (2 * num_of_points_ this + i)).
  assert (HD : D = D / delta_s_ this * delta_s_ this) by (field; lra).
  set (q := D / delta_s_ this) in *. clearbody q. rewrite HD.
  split; intros [Hlo Hhi]; split; nra.
Qed.

(** X7 on the seeded two-station problem at [d'' = (1, 5)]: the implied
    jerk is [2], within the bound [3]. *)
Lemma block1_box_is_the_jerk_bound_example :
  let zeros := [0; 0; 0; 0; 0; 0] in
  let b := {| x_l := zeros; x_u := zeros; g_l := zeros; g_u := zeros |} in
  let b' := fst (get_bounds_info two_stations_seeded 6 6 b) in
  let g' := fst (eval_g two_stations_seeded 6 [0; 0; 0; 0; 1; 5] true 6
                   zeros) in
  load (g_l b') 0 <= load g' 0 <= load (g_u b') 0.
Proof.
  cbv zeta.
  apply (proj2 (block1_box_is_the_jerk_bound two_stations_seeded 6 6
                  [0; 0; 0; 0; 1; 5] [0; 0; 0; 0; 0; 0] true
                  {| x_l := [0; 0; 0; 0; 0; 0]; x_u := [0; 0; 0; 0; 0; 0];
                     g_l := [0; 0; 0; 0; 0; 0]; g_u := [0; 0; 0; 0; 0; 0] |}
                  0%nat ltac:(cbn; lra) eq_refl eq_refl eq_refl eq_refl
                  eq_refl ltac:(simpl; lia))).
  unfold implied_jerk, load. cbn. lra.
Defined.

(** ** The objective and its gradient *)

(** The derivative of a quadratic function. *)
Lemma derivable_pt_lim_quadratic (f : R -> R) (a b c x : R) :
  (forall t, f t = a * (t * t) + b * t + c) ->
  derivable_pt_lim f x (2 * a * x + b).
Proof.
  intros Hf eps Heps.
  assert (Hpos : 0 < Rabs a + 1) by (pose proof (Rabs_pos a); lra).
  exists (mkposreal (eps / (Rabs a + 1)) (Rdiv_lt_0_compat _ _ Heps Hpos)).
  intros h Hh Hlt. cbn [pos] in Hlt. rewrite !Hf.
  replace ((a * ((x + h) * (x + h)) + b * (x + h) + c
            - (a * (x * x) + b * x + c)) / h - (2 * a * x + b))
    with (a * h) by (field; exact Hh).
  rewrite Rabs_mult.
  assert (Hscaled : Rabs h * (Rabs a + 1) < eps).
  { apply Rmult_lt_compat_r with (r := Rabs a + 1) in Hlt; [|exact Hpos].
    replace (eps / (Rabs a + 1) * (Rabs a + 1)) with eps in Hlt
      by (field; lra).
    exact Hlt. }
  pose proof (Rabs_pos a). pose proof (Rabs_pos h). nra.
Qed.

(** Changing one term of a sum changes the sum by the difference. *)
Lemma sum_upto_change_one (n k : nat) (f f' : nat -> R) :
  (k < n)%nat ->
  (forall i, (i < n)%nat -> i <> k -> f' i = f i) ->
  sum_upto n f' = sum_upto n f + (f' k - f k).
Proof.
  induction n as [|n IH]; intros Hk Hsame; [lia|]. simpl.
  destruct (Nat.eq_dec k n) as [->|Hne].
  - rewrite (sum_upto_ext n f' f) by (intros i Hi; apply Hsame; lia). lra.
  - rewrite IH by (try lia; intros i Hi; apply Hsame; lia).
    rewrite (Hsame n) by lia. lra.
Qed.

Section ObjectiveAndGradient.

Variable this : LateralTrajectoryOptimizer.

Local Abbreviation N := (num_of_points_ this).

(** The objective under any weights. *)
Lemma eval_f_sum (n : Z) (x : list R) (new_x : bool) :
  fst (eval_f this n x new_x) = sum_upto N (station_cost this x).
Proof.
  unfold eval_f. cbn [fst].
  rewrite <- (Rplus_0_l (sum_upto _ _)), <- for_range_sum.
  apply for_range_ext. intros i acc _. unfold station_cost. cbv zeta. ring.
Qed.

Lemma station_cost_nonneg (x : list R) (i : nat) :
  0 <= w_d_ this -> 0 <= w_d_prime_ this -> 0 <= w_d_pprime_ this ->
  0 <= w_d_obs_ this ->
  0 <= station_cost this x i.
Proof.
  intros H1 H2 H3 H4. unfold station_cost. cbv zeta.
  repeat apply Rplus_le_le_0_compat;
    (apply Rmult_le_pos; [apply Rle_0_sqr|assumption]).
Qed.

(** Every entry that [eval_grad_f] leaves. *)
Lemma eval_grad_f_entries (n : Z) (x grad_f : list R) (new_x : bool)
    (j : nat) :
  length grad_f = (3 * N)%nat -> (j < 3 * N)%nat ->
  load (fst (eval_grad_f this n x new_x grad_f)) j = gradient_entry this x j.
Proof.
  intros Hlen Hj. unfold eval_grad_f. cbn [fst].
  set (log := fun i : nat =>
         [(i, 2 * load x i * w_d_ this
              + 2 * (load x i
                     - (fst (d_bound this i) + snd (d_bound this i)) * 0.5)
                * w_d_obs_ this);
          ((N + i)%nat, 2 * load x (N + i) * w_d_prime_ this);
          ((2 * N + i)%nat, 2 * load x (2 * N + i) * w_d_pprime_ this)]).
  change (load (for_range 0 N (fun i buf => stores (log i) buf)
                  (fill (Z.to_nat n) 0 grad_f)) j = gradient_entry this x j).
  unfold gradient_entry. cbv zeta.
  apply load_for_range_written; [rewrite length_fill; lia| |].
  - destruct (Nat.lt_ge_cases j N) as [Hlt|Hge];
      [|destruct (Nat.lt_ge_cases j (2 * N)) as [Hlt|Hge']].
    + exists j. eexists. split; [lia|]. split; [left; reflexivity|reflexivity].
    + exists (j - N)%nat. eexists. split; [lia|].
      split; [right; left; reflexivity|cbn [fst]; lia].
    + exists (j - 2 * N)%nat. eexists. split; [lia|].
      split; [right; right; left; reflexivity|cbn [fst]; lia].
  - intros i w Hi [<-|[<-|[<-|[]]]] Hidx; cbn [fst snd] in *;
      repeat case_decide; try lia; subst j; reflexivity.
Qed.

Lemma eval_grad_f_length (n : Z) (x grad_f : list R) (new_x : bool) :
  length (fst (eval_grad_f this n x new_x grad_f)) = length grad_f.
Proof.
  unfold eval_grad_f. cbn [fst].
  rewrite (length_for_range_stores
             (fun i =>
                [(i, 2 * load x i * w_d_ this
                     + 2 * (load x i
                            - (fst (d_bound this i) + snd (d_bound this i))
                              * 0.5) * w_d_obs_ this);
                 ((N + i)%nat, 2 * load x (N + i) * w_d_prime_ this);
                 ((2 * N + i)%nat,
                  2 * load x (2 * N + i) * w_d_pprime_ this)])).
  apply length_fill.
Qed.

(** The objective after one variable of station [i0] has been replaced. *)
Lemma eval_f_store (n : Z) (x : list R) (c i0 : nat) (t : R) :
  (i0 < N)%nat ->
  c = i0 \/ c = (N + i0)%nat \/ c = (2 * N + i0)%nat ->
  fst (eval_f this n (store c t x) true)
  = fst (eval_f this n x true)
    + (station_cost this (store c t x) i0 - station_cost this x i0).
Proof.
  intros Hi0 Hc. rewrite !eval_f_sum.
  apply sum_upto_change_one; [exact Hi0|].
  intros i Hi Hne. unfold station_cost. cbv zeta.
  rewrite !load_store_ne by lia. reflexivity.
Qed.

(** The gradient that [eval_grad_f] writes is the derivative of the
    objective that [eval_f] returns. *)
Lemma eval_grad_f_derivative (n : Z) (x : list R) (c : nat) :
  length x = (3 * N)%nat -> (c < 3 * N)%nat ->
  eval_f_partial this n x c (gradient_entry this x c).
Proof.
  intros Hx Hc. unfold eval_f_partial, gradient_entry. cbv zeta.
  set (S0 := fst (eval_f this n x true)).
  repeat case_decide.
  - (* the offset of station [c] *)
    set (mid := (fst (d_bound this c) + snd (d_bound this c)) * 0.5).
    replace (2 * load x c * w_d_ this + 2 * (load x c - mid) * w_d_obs_ this)
      with (2 * (w_d_ this + w_d_obs_ this) * load x c
            + (- 2 * mid * w_d_obs_ this)) by ring.
    apply derivable_pt_lim_quadratic
      with (c := S0 - station_cost this x c
                 + load x (N + c) * load x (N + c) * w_d_prime_ this
                 + load x (2 * N + c) * load x (2 * N + c) * w_d_pprime_ this
                 + mid * mid * w_d_obs_ this).
    intros t. rewrite (eval_f_store n x c c t) by (try lia; auto).
    fold S0. unfold station_cost at 1. cbv zeta.
    rewrite load_store_eq, !load_store_ne by lia. fold mid. ring.
  - (* the rate of station [c - N] *)
    replace (2 * load x c * w_d_prime_ this)
      with (2 * w_d_prime_ this * load x c + 0) by ring.
    set (i0 := (c - N)%nat).
    set (mid := (fst (d_bound this i0) + snd (d_bound this i0)) * 0.5).
    apply derivable_pt_lim_quadratic
      with (c := S0 - station_cost this x i0
                 + load x i0 * load x i0 * w_d_ this
                 + load x (2 * N + i0) * load x (2 * N + i0)
                   * w_d_pprime_ this
                 + (load x i0 - mid) * (load x i0 - mid) * w_d_obs_ this).
    intros t. rewrite (eval_f_store n x c i0 t) by (subst i0; lia).
    fold S0. unfold station_cost at 1. cbv zeta.
    replace (N + i0)%nat with c by (subst i0; lia).
    rewrite load_store_eq, !load_store_ne by (subst i0; lia).
    fold mid. ring.
  - (* the second derivative of station [c - 2N] *)
    replace (2 * load x c * w_d_pprime_ this)
      with (2 * w_d_pprime_ this * load x c + 0) by ring.
    set (i0 := (c - 2 * N)%nat).
    set (mid := (fst (d_bound this i0) + snd (d_bound this i0)) * 0.5).
    apply derivable_pt_lim_quadratic
      with (c := S0 - station_cost this x i0
                 + load x i0 * load x i0 * w_d_ this
                 + load x (N + i0) * load x (N + i0) * w_d_prime_ this
                 + (load x i0 - mid) * (load x i0 - mid) * w_d_obs_ this).
    intros t. rewrite (eval_f_store n x c i0 t) by (subst i0; lia).
    fold S0. unfold station_cost at 1. cbv zeta.
    replace (2 * N + i0)%nat with c by (subst i0; lia).
    rewrite load_store_eq, !load_store_ne by (subst i0; lia).
    fold mid. ring.
Qed.

End ObjectiveAndGradient.

(** X8.  Under any setting of the four weights the objective that [eval_f]
    returns is the sum over the stations of the weighted cost of the
    station, and it is never negative when no weight is negative. *)
Theorem eval_f_weighted_sum_nonneg :
  forall (this : LateralTrajectoryOptimizer) (n : Z) (x : list R)
         (new_x : bool),
  fst (eval_f this n x new_x)
  = sum_upto (num_of_points_ this) (station_cost this x)
  /\ (0 <= w_d_ this -> 0 <= w_d_prime_ this -> 0 <= w_d_pprime_ this ->
      0 <= w_d_obs_ this ->
      0 <= fst (eval_f this n x new_x)).
Proof.
  intros this n x new_x. split; [apply eval_f_sum|].
  intros H1 H2 H3 H4. rewrite eval_f_sum.
  apply sum_upto_nonneg. intros i _. apply station_cost_nonneg; assumption.
Qed.

(** X8 on the two-station problem, whose weights are one. *)
Lemma eval_f_weighted_sum_nonneg_example :
  0 <= fst (eval_f two_stations 6 [1; -4; 2; -5; 3; -6] true).
Proof.
  apply (proj2 (eval_f_weighted_sum_nonneg two_stations 6
                  [1; -4; 2; -5; 3; -6] true)); cbn; lra.
Defined.

(** X9.  The gradient is exact: for a decision vector and a gradient buffer
    of [3N] entries, entry [c] that [eval_grad_f] writes is the partial
    derivative with respect to [x[c]] of the objective that [eval_f]
    returns, under any weights. *)
Theorem eval_grad_f_is_gradient_of_eval_f :
  forall (this : LateralTrajectoryOptimizer) (n : Z) (x grad_f : list R)
         (new_x : bool) (c : nat),
  n = Z.of_nat (3 * num_of_points_ this) ->
  length x = (3 * num_of_points_ this)%nat ->
  length grad_f = (3 * num_of_points_ this)%nat ->
  (c < 3 * num_of_points_ this)%nat ->
  snd (eval_grad_f this n x new_x grad_f) = true
  /\ eval_f_partial this n x c
       (load (fst (eval_grad_f this n x new_x grad_f)) c).
Proof.
  intros this n x grad_f new_x c _ Hx Hgrad Hc. split; [reflexivity|].
  rewrite eval_grad_f_entries by assumption.
  apply eval_grad_f_derivative; assumption.
Qed.

(** X9 on the seeded two-station problem, for the offset of station [1]. *)
Lemma eval_grad_f_is_gradient_of_eval_f_example :
  eval_f_partial two_stations_seeded 6 [1; 4; 2; 5; 3; 6] 1
    (load (fst (eval_grad_f two_stations_seeded 6 [1; 4; 2; 5; 3; 6] true
                  [0; 0; 0; 0; 0; 0])) 1).
Proof.
  exact (proj2 (eval_grad_f_is_gradient_of_eval_f two_stations_seeded 6
                  [1; 4; 2; 5; 3; 6] [0; 0; 0; 0; 0; 0] true 1%nat
                  eq_refl eq_refl eq_refl ltac:(simpl; lia))).
Defined.

(** ** The Hessian against the gradient *)

(** The derivative of a gradient entry with respect to a variable: the
    entries are affine, each in its own variable. *)
Lemma eval_grad_f_entry_derivative (this : LateralTrajectoryOptimizer)
    (n : Z) (x grad_f : list R) (r c : nat) :
  let N := num_of_points_ this in
  length x = (3 * N)%nat -> length grad_f = (3 * N)%nat ->
  (r < 3 * N)%nat -> (c < 3 * N)%nat ->
  eval_grad_f_partial this n grad_f x r c
    (if decide (r = c) then
       if decide (r < N)%nat then 2 * (w_d_ this + w_d_obs_ this)
       else if decide (r < 2 * N)%nat then 2 * w_d_prime_ this
       else 2 * w_d_pprime_ this
     else 0).
Proof.
  intros N Hx Hgrad Hr Hc. subst N. unfold eval_grad_f_partial.
  case_decide as Hrc.
  - subst c. unfold gradient_entry. repeat case_decide.
    + apply derivable_pt_lim_affine
        with (b := - 2 * ((fst (d_bound this r) + snd (d_bound this r)) * 0.5)
                   * w_d_obs_ this).
      intros t. rewrite eval_grad_f_entries by assumption.
      unfold gradient_entry. cbv zeta. rewrite !decide_True by assumption.
      rewrite load_store_eq by lia. ring.
    + apply derivable_pt_lim_affine with (b := 0).
      intros t. rewrite eval_grad_f_entries by assumption.
      unfold gradient_entry. cbv zeta.
      rewrite decide_False, decide_True by assumption.
      rewrite load_store_eq by lia. ring.
    + apply derivable_pt_lim_affine with (b := 0).
      intros t. rewrite eval_grad_f_entries by assumption.
      unfold gradient_entry. cbv zeta.
      rewrite !decide_False by assumption.
      rewrite load_store_eq by lia. ring.
  - apply derivable_pt_lim_affine with (b := gradient_entry this x r).
    intros t. rewrite eval_grad_f_entries by assumption.
    unfold gradient_entry. cbv zeta.
    rewrite !load_store_ne by (intros Heq; apply Hrc; symmetry; exact Heq).
    ring.
Qed.

(** X10.  With the four weights equal to one, the diagonal that [eval_h]
    writes is the second derivative of the objective: value [r] is the
    derivative of gradient entry [r] with respect to [x[r]], and every
    gradient entry has derivative zero with respect to any other
    variable. *)
Theorem eval_h_is_derivative_of_gradient :
  forall (this : LateralTrajectoryOptimizer) (n m nele_hess : Z)
         (x lambda grad_f : list R) (new_x new_lambda : bool)
         (obj_factor : R) (iRow0 jCol0 : list Z) (values vals : list R),
  w_d_ this = 1 -> w_d_prime_ this = 1 -> w_d_pprime_ this = 1 ->
  w_d_obs_ this = 1 ->
  length x = (3 * num_of_points_ this)%nat ->
  length grad_f = (3 * num_of_points_ this)%nat ->
  length values = (3 * num_of_points_ this)%nat ->
  hess_vals (eval_h this n x new_x obj_factor m lambda new_lambda nele_hess
               iRow0 jCol0 (Some values)) = Some vals ->
  forall r c,
    (r < 3 * num_of_points_ this)%nat -> (c < 3 * num_of_points_ this)%nat ->
    eval_grad_f_partial this n grad_f x r c
      (if decide (r = c) then load vals r else 0).
Proof.
  intros this n m nele_hess x lambda grad_f new_x new_lambda obj_factor
    iRow0 jCol0 values vals Hw1 Hw2 Hw3 Hw4 Hx Hgrad Hvalues Hvals r c Hr Hc.
  destruct (eval_h_values this n m nele_hess x lambda new_x new_lambda
              obj_factor iRow0 jCol0 values Hvalues)
    as (vals' & Hvals' & _ & Hd & Hrates).
  rewrite Hvals in Hvals'. injection Hvals' as <-.
  pose proof (eval_grad_f_entry_derivative this n x grad_f r c
                Hx Hgrad Hr Hc) as Hder.
  cbv zeta in Hder. rewrite Hw1, Hw2, Hw3, Hw4 in Hder.
  case_decide as Hrc; [|exact Hder].
  destruct (Nat.lt_ge_cases r (num_of_points_ this)) as [Hlt|Hge].
  - rewrite Hd by exact Hlt. rewrite decide_True in Hder by exact Hlt.
    replace 4 with (2 * (1 + 1)) by ring. exact Hder.
  - rewrite Hrates by lia. rewrite decide_False in Hder by lia.
    replace 2 with (2 * 1) at 1 by ring.
    case_decide; exact Hder.
Qed.

(** X10 on the two-station problem, for the rate of station [0]. *)
Lemma eval_h_is_derivative_of_gradient_example :
  eval_grad_f_partial two_stations 6 [0; 0; 0; 0; 0; 0] [1; 4; 2; 5; 3; 6]
    2 2 (load [4; 4; 2; 2; 2; 2] 2).
Proof.
  exact (eval_h_is_derivative_of_gradient two_stations 6 6 6
           [1; 4; 2; 5; 3; 6] [0; 0; 0; 0; 0; 0] [0; 0; 0; 0; 0; 0]
           true true 1 [] [] [0; 0; 0; 0; 0; 0] [4; 4; 2; 2; 2; 2]
           eq_refl eq_refl eq_refl eq_refl eq_refl eq_refl eq_refl eq_refl
           2%nat 2%nat ltac:(simpl; lia) ltac:(simpl; lia)).
Defined.

(** ** The constraint Jacobian in closed form *)

Lemma firstn_store {A : Type} (k : nat) (v : A) (buf : list A) :
  (k < length buf)%nat ->
  firstn (S k) (store k v buf) = firstn k buf ++ [v].
Proof.
  revert k. induction buf as [|a buf IH]; intros k Hk; [simpl in Hk; lia|].
  destruct k as [|k].
  - reflexivity.
  - change (a :: firstn (S k) (store k v buf) = a :: (firstn k buf ++ [v])).
    rewrite IH by (simpl in Hk; lia). reflexivity.
Qed.

Lemma map_flat_map {A B C : Type} (f : B -> C) (g : A -> list B)
    (l : list A) :
  map f (flat_map g l) = flat_map (fun a => map f (g a)) l.
Proof.
  induction l as [|a l IH]; simpl; [reflexivity|].
  rewrite map_app, IH. reflexivity.
Qed.

Lemma flat_map_seq_last {A : Type} (f : nat -> list A) (q : nat) :
  flat_map f (seq 0 (S q)) = flat_map f (seq 0 q) ++ f q.
Proof.
  rewrite seq_S, flat_map_app. simpl. rewrite app_nil_r. reflexivity.
Qed.

Lemma length_flat_map_seq {A : Type} (f : nat -> list A) (k q : nat) :
  (forall i, length (f i) = k) ->
  length (flat_map f (seq 0 q)) = (k * q)%nat.
Proof.
  intros Hf. induction q as [|q IH]; [simpl; lia|].
  rewrite flat_map_seq_last, length_app, IH, Hf. lia.
Qed.

(** What a run of [put_entry] leaves. *)
Lemma put_entries_spec (cols : list nat) (c : jac_cursor) :
  (nz_index c + length cols <= length (iRow c))%nat ->
  (nz_index c + length cols <= length (jCol c))%nat ->
  nz_index (put_entries cols c) = (nz_index c + length cols)%nat
  /\ constraint_index (put_entries cols c) = constraint_index c
  /\ length (iRow (put_entries cols c)) = length (iRow c)
  /\ length (jCol (put_entries cols c)) = length (jCol c)
  /\ firstn (nz_index (put_entries cols c)) (iRow (put_entries cols c))
     = firstn (nz_index c) (iRow c)
       ++ map Z.of_nat (repeat (constraint_index c) (length cols))
  /\ firstn (nz_index (put_entries cols c)) (jCol (put_entries cols c))
     = firstn (nz_index c) (jCol c) ++ map Z.of_nat cols.
Proof.
  revert c. induction cols as [|col cols IH]; intros c HiRow HjCol.
  - cbn. rewrite Nat.add_0_r, !app_nil_r. repeat split.
  - change (put_entries (col :: cols) c)
      with (put_entries cols (put_entry col c)).
    cbn [length] in HiRow, HjCol.
    destruct (IH (put_entry col c)) as (Hnz & Hci & Hlr & Hlc & Hrows & Hcols).
    { unfold put_entry. cbn [nz_index iRow]. rewrite length_store. lia. }
    { unfold put_entry. cbn [nz_index jCol]. rewrite length_store. lia. }
    rewrite Hnz in Hrows, Hcols. rewrite Hnz, Hci, Hlr, Hlc, Hrows, Hcols.
    unfold put_entry. cbn [nz_index constraint_index iRow jCol length].
    rewrite !length_store, !firstn_store by lia.
    rewrite <- !app_assoc. cbn [repeat map app].
    repeat split. lia.
Qed.

Lemma for_range_step {S : Type} (q : nat) (body : nat -> S -> S) (s : S) :
  for_range 0 (Datatypes.S q) body s = body q (for_range 0 q body s).
Proof. apply for_range_last. lia. Qed.

(** What a loop of the structure phase leaves: [k] entries per iteration,
    of the columns [colsf i], then one more constraint. *)
Lemma structure_loop (colsf : nat -> list nat) (k q : nat) (c0 : jac_cursor) :
  (forall i, length (colsf i) = k) ->
  (nz_index c0 + k * q <= length (iRow c0))%nat ->
  (nz_index c0 + k * q <= length (jCol c0))%nat ->
  let c := for_range 0 q
             (fun i c => next_constraint (put_entries (colsf i) c)) c0 in
  nz_index c = (nz_index c0 + k * q)%nat
  /\ constraint_index c = (constraint_index c0 + q)%nat
  /\ length (iRow c) = length (iRow c0)
  /\ length (jCol c) = length (jCol c0)
  /\ firstn (nz_index c) (iRow c)
     = firstn (nz_index c0) (iRow c0)
       ++ map Z.of_nat
            (flat_map (fun i => repeat (constraint_index c0 + i)%nat k)
               (seq 0 q))
  /\ firstn (nz_index c) (jCol c)
     = firstn (nz_index c0) (jCol c0)
       ++ map Z.of_nat (flat_map colsf (seq 0 q)).
Proof.
  intros Hk. induction q as [|q IH]; intros HiRow HjCol; cbv zeta.
  - rewrite for_range_empty by lia. cbn. rewrite !app_nil_r.
    repeat split; lia.
  - rewrite for_range_step.
    destruct IH as (Hnz & Hci & Hlr & Hlc & Hrows & Hcols); [lia|lia|].
    set (c := for_range 0 q _ c0) in *.
    destruct (put_entries_spec (colsf q) c)
      as (Hnz' & Hci' & Hlr' & Hlc' & Hrows' & Hcols').
    { rewrite Hk, Hnz, Hlr. lia. }
    { rewrite Hk, Hnz, Hlc. lia. }
    unfold next_constraint. cbn [nz_index constraint_index iRow jCol].
    rewrite Hnz', Hci', Hlr', Hlc'.
    rewrite Hnz' in Hrows', Hcols'. rewrite Hrows', Hcols', Hrows, Hcols.
    rewrite !flat_map_seq_last, !map_app, <- !app_assoc, Hk, Hnz, Hci.
    repeat split; lia.
Qed.

(** What a run of [put_value] leaves. *)
Lemma put_values_spec (vs : list R) (c : nat * list R) :
  (fst c + length vs <= length (snd c))%nat ->
  fst (put_values vs c) = (fst c + length vs)%nat
  /\ length (snd (put_values vs c)) = length (snd c)
  /\ firstn (fst (put_values vs c)) (snd (put_values vs c))
     = firstn (fst c) (snd c) ++ vs.
Proof.
  revert c. induction vs as [|v vs IH]; intros c Hlen.
  - cbn. rewrite Nat.add_0_r, app_nil_r. repeat split.
  - change (put_values (v :: vs) c) with (put_values vs (put_value v c)).
    cbn [length] in Hlen.
    destruct (IH (put_value v c)) as (Hnz & Hl & Hvals).
    { unfold put_value. cbn [fst snd]. rewrite length_store. lia. }
    rewrite Hnz in Hvals. rewrite Hnz, Hl, Hvals.
    unfold put_value. cbn [fst snd length].
    rewrite length_store, firstn_store by lia. rewrite <- app_assoc.
    repeat split. lia.
Qed.

(** What a loop of the value phase leaves. *)
Lemma values_loop (valsf : nat -> list R) (k q : nat) (c0 : nat * list R) :
  (forall i, length (valsf i) = k) ->
  (fst c0 + k * q <= length (snd c0))%nat ->
  let c := for_range 0 q (fun i c => put_values (valsf i) c) c0 in
  fst c = (fst c0 + k * q)%nat
  /\ length (snd c) = length (snd c0)
  /\ firstn (fst c) (snd c)
     = firstn (fst c0) (snd c0) ++ flat_map valsf (seq 0 q).
Proof.
  intros Hk. induction q as [|q IH]; intros Hlen; cbv zeta.
  - rewrite for_range_empty by lia. cbn. rewrite app_nil_r.
    repeat split; lia.
  - rewrite for_range_step.
    destruct IH as (Hnz & Hl & Hvals); [lia|].
    set (c := for_range 0 q _ c0) in *.
    destruct (put_values_spec (valsf q) c) as (Hnz' & Hl' & Hvals').
    { rewrite Hk, Hnz, Hl. lia. }
    rewrite Hnz', Hl'. rewrite Hnz' in Hvals'. rewrite Hvals', Hvals.
    rewrite flat_map_seq_last, <- app_assoc, Hk, Hnz.
    repeat split; lia.
Qed.

Section JacobianClosedForm.

Variable this : LateralTrajectoryOptimizer.

Local Abbreviation N := (num_of_points_ this).

(** The structure phase writes the closed-form rows and columns. *)
Lemma jac_structure_closed (iRow0 jCol0 : list Z) :
  length iRow0 = jac_count N -> length jCol0 = jac_count N ->
  iRow (jac_structure this iRow0 jCol0) = map Z.of_nat (jac_rows N)
  /\ jCol (jac_structure this iRow0 jCol0) = map Z.of_nat (jac_cols N).
Proof.
  unfold jac_count. intros HiRow HjCol.
  set (q := (N - 1)%nat) in *.
  set (c0 := {| nz_index := 0; constraint_index := 0;
                iRow := iRow0; jCol := jCol0 |}).
  set (c1 := for_range 0 q
               (fun i c => next_constraint
                  (put_entries [2 * N + i; 2 * N + i + 1]%nat c)) c0).
  set (c2 := for_range 0 q
               (fun i c => next_constraint
                  (put_entries
                     [N + i; N + i + 1; 2 * N + i; 2 * N + i + 1]%nat c)) c1).
  set (c3 := for_range 0 q
               (fun i c => next_constraint
                  (put_entries
                     [i; i + 1; N + i; 2 * N + i; 2 * N + i + 1]%nat c)) c2).
  assert (Hform : jac_structure this iRow0 jCol0
                  = put_entries [0; N; 2 * N]%nat c3).
  { unfold jac_structure, for_pairs. rewrite <- Nat.sub_1_r. reflexivity. }
  rewrite Hform. clear Hform.
  destruct (structure_loop
              (fun i => [2 * N + i; 2 * N + i + 1]%nat) 2 q c0
              (fun _ => eq_refl))
    as (Hnz1 & Hci1 & Hlr1 & Hlc1 & Hrows1 & Hcols1);
    [cbn; lia|cbn; lia|].
  fold c1 in Hnz1, Hci1, Hlr1, Hlc1, Hrows1, Hcols1.
  cbn [nz_index constraint_index iRow jCol c0] in Hnz1, Hci1, Hlr1, Hlc1.
  destruct (structure_loop
              (fun i => [N + i; N + i + 1; 2 * N + i; 2 * N + i + 1]%nat)
              4 q c1 (fun _ => eq_refl))
    as (Hnz2 & Hci2 & Hlr2 & Hlc2 & Hrows2 & Hcols2); [lia|lia|].
  fold c2 in Hnz2, Hci2, Hlr2, Hlc2, Hrows2, Hcols2.
  destruct (structure_loop
              (fun i => [i; i + 1; N + i; 2 * N + i; 2 * N + i + 1]%nat)
              5 q c2 (fun _ => eq_refl))
    as (Hnz3 & Hci3 & Hlr3 & Hlc3 & Hrows3 & Hcols3); [lia|lia|].
  fold c3 in Hnz3, Hci3, Hlr3, Hlc3, Hrows3, Hcols3.
  destruct (put_entries_spec [0; N; 2 * N]%nat c3)
    as (Hnz4 & Hci4 & Hlr4 & Hlc4 & Hrows4 & Hcols4);
    [cbn [length]; lia|cbn [length]; lia|].
  cbn [length] in Hnz4, Hrows4.
  assert (Hc1 : constraint_index c1 = q) by lia.
  assert (Hc2 : constraint_index c2 = (2 * q)%nat) by lia.
  assert (Hc3 : constraint_index c3 = (3 * q)%nat) by lia.
  rewrite firstn_all2 in Hrows4 by lia.
  rewrite firstn_all2 in Hcols4 by lia.
  rewrite Hrows4, Hcols4, Hrows3, Hcols3, Hrows2, Hcols2, Hrows1, Hcols1.
  rewrite Hc1, Hc2, Hc3.
  unfold jac_rows, jac_cols. fold q. cbv zeta.
  rewrite !map_app, <- !app_assoc. split; reflexivity.
Qed.

(** The value phase writes the closed-form values. *)
Lemma jac_values_closed (x : list R) (new_x : bool) (values : list R) :
  length values = jac_count N ->
  snd (jac_values this x new_x values) = jac_coeffs this.
Proof.
  unfold jac_count. intros Hvalues.
  set (q := (N - 1)%nat) in *.
  set (ds := delta_s_ this).
  set (c0 := (0%nat, fill (nnz_jac_g_ this) 0 values)).
  set (c1 := for_range 0 q (fun _ c => put_values [1; -1] c) c0).
  set (c2 := for_range 0 q
               (fun _ c => put_values [1; -1; 0.5 * ds; 0.5 * ds] c) c1).
  set (c3 := for_range 0 q
               (fun _ c =>
                  put_values [1; -1; ds; ds * ds / 3; ds * ds / 6] c) c2).
  set (c4 := for_range 0 3 (fun _ c => put_values [1] c) c3).
  assert (Hform : jac_values this x new_x values = c4).
  { unfold jac_values, for_pairs. rewrite <- Nat.sub_1_r. reflexivity. }
  rewrite Hform. clear Hform.
  assert (Hl0 : length (snd c0) = (11 * q + 3)%nat)
    by (cbn [snd c0]; rewrite length_fill; exact Hvalues).
  destruct (values_loop (fun _ => [1; -1]) 2 q c0 (fun _ => eq_refl))
    as (Hnz1 & Hl1 & Hvals1); [cbn [fst c0]; lia|].
  fold c1 in Hnz1, Hl1, Hvals1. cbn [fst c0] in Hnz1.
  destruct (values_loop (fun _ => [1; -1; 0.5 * ds; 0.5 * ds]) 4 q c1
              (fun _ => eq_refl)) as (Hnz2 & Hl2 & Hvals2); [lia|].
  fold c2 in Hnz2, Hl2, Hvals2.
  destruct (values_loop
              (fun _ => [1; -1; ds; ds * ds / 3; ds * ds / 6]) 5 q c2
              (fun _ => eq_refl)) as (Hnz3 & Hl3 & Hvals3); [lia|].
  fold c3 in Hnz3, Hl3, Hvals3.
  destruct (values_loop (fun _ => [1]) 1 3 c3 (fun _ => eq_refl))
    as (Hnz4 & Hl4 & Hvals4); [lia|].
  fold c4 in Hnz4, Hl4, Hvals4.
  rewrite firstn_all2 in Hvals4 by lia.
  rewrite Hvals4, Hvals3, Hvals2, Hvals1.
  unfold jac_coeffs. fold q ds. cbv zeta.
  rewrite <- !app_assoc. reflexivity.
Qed.

Lemma length_jac_rows : length (jac_rows N) = jac_count N.
Proof.
  unfold jac_rows, jac_count. cbv zeta. rewrite !length_app.
  rewrite (length_flat_map_seq _ 2), (length_flat_map_seq _ 4),
    (length_flat_map_seq _ 5) by reflexivity.
  cbn [repeat length]. lia.
Qed.

Lemma length_jac_cols : length (jac_cols N) = jac_count N.
Proof.
  unfold jac_cols, jac_count. cbv zeta. rewrite !length_app.
  rewrite (length_flat_map_seq _ 2), (length_flat_map_seq _ 4),
    (length_flat_map_seq _ 5) by reflexivity.
  cbn [length]. lia.
Qed.

Lemma length_jac_coeffs : length (jac_coeffs this) = jac_count N.
Proof.
  unfold jac_coeffs, jac_count. cbv zeta. rewrite !length_app.
  rewrite (length_flat_map_seq _ 2), (length_flat_map_seq _ 4),
    (length_flat_map_seq _ 5) by reflexivity.
  cbn [length]. lia.
Qed.

(** The two phases of [eval_jac_g], on buffers of [jac_count N] entries. *)
Lemma eval_jac_g_structure_closed (n m nele_jac : Z) (x : list R)
    (new_x : bool) (iRow0 jCol0 : list Z) :
  size_of_int n = Z.of_nat (N * 3) -> size_of_int m = Z.of_nat (N * 3) ->
  length iRow0 = jac_count N -> length jCol0 = jac_count N ->
  eval_jac_g this n x new_x m nele_jac iRow0 jCol0 None
  = Done {| jac_this := set_nnz_jac_g this (jac_count N);
            jac_iRow := map Z.of_nat (jac_rows N);
            jac_jCol := map Z.of_nat (jac_cols N);
            jac_vals := None; jac_ret := true |}.
Proof.
  intros Hn Hm HiRow HjCol. rewrite eval_jac_g_checked.
  rewrite Hn, Hm, !Z.eqb_refl. cbv zeta. cbn [andb].
  destruct (jac_structure_closed iRow0 jCol0 HiRow HjCol) as (-> & ->).
  rewrite jac_structure_count, <- Nat.sub_1_r. reflexivity.
Qed.

Lemma eval_jac_g_values_closed (n m nele_jac : Z) (x : list R)
    (new_x : bool) (iRow0 jCol0 : list Z) (values : list R) :
  size_of_int n = Z.of_nat (N * 3) -> size_of_int m = Z.of_nat (N * 3) ->
  nnz_jac_g_ this = jac_count N -> length values = jac_count N ->
  eval_jac_g this n x new_x m nele_jac iRow0 jCol0 (Some values)
  = Done {| jac_this := this; jac_iRow := iRow0; jac_jCol := jCol0;
            jac_vals := Some (jac_coeffs this); jac_ret := true |}.
Proof.
  intros Hn Hm Hnnz Hvalues. rewrite eval_jac_g_checked.
  rewrite Hn, Hm, !Z.eqb_refl. cbv zeta. cbn [andb].
  rewrite jac_values_count, Hnnz, jac_values_closed by exact Hvalues.
  unfold jac_count. rewrite <- Nat.sub_1_r, Nat.eqb_refl. reflexivity.
Qed.

End JacobianClosedForm.

(** ** The value phase against the decision vector and the buffer *)

(** C7.  Once the structure phase of [eval_jac_g] has run, value-phase
    evaluations at any two decision vectors [x1] and [x2], each on a value
    buffer of its own with [11(N-1) + 3] entries, both complete and write one
    and the same value array: the values written depend neither on [x] nor
    on what the buffer held. *)
Theorem eval_jac_g_values_independent_of_x :
  forall (this : LateralTrajectoryOptimizer) (n m nele_jac : Z)
         (x0 : list R) (new_x0 : bool) (iRow0 jCol0 : list Z)
         (r0 : jac_result),
  eval_jac_g this n x0 new_x0 m nele_jac iRow0 jCol0 None = Done r0 ->
  forall (x1 x2 : list R) (new_x1 new_x2 : bool) (values1 values2 : list R),
  length values1 = (11 * (num_of_points_ this - 1) + 3)%nat ->
  length values2 = (11 * (num_of_points_ this - 1) + 3)%nat ->
  exists vals : list R,
    eval_jac_g (jac_this r0) n x1 new_x1 m nele_jac (jac_iRow r0) (jac_jCol r0)
      (Some values1)
    = Done {| jac_this := jac_this r0; jac_iRow := jac_iRow r0;
              jac_jCol := jac_jCol r0; jac_vals := Some vals;
              jac_ret := true |}
    /\ eval_jac_g (jac_this r0) n x2 new_x2 m nele_jac (jac_iRow r0)
         (jac_jCol r0) (Some values2)
       = Done {| jac_this := jac_this r0; jac_iRow := jac_iRow r0;
                 jac_jCol := jac_jCol r0; jac_vals := Some vals;
                 jac_ret := true |}.
Proof.
  intros this n m nele_jac x0 new_x0 iRow0 jCol0 r0 Hstructure
    x1 x2 new_x1 new_x2 values1 values2 Hvalues1 Hvalues2.
  rewrite eval_jac_g_checked in Hstructure.
  destruct (Z.eqb_spec (size_of_int n) (Z.of_nat (num_of_points_ this * 3)))
    as [Hn|Hn]; [|discriminate].
  destruct (Z.eqb_spec (size_of_int m) (Z.of_nat (num_of_points_ this * 3)))
    as [Hm|Hm]; [|discriminate].
  cbn [andb] in Hstructure. cbv zeta in Hstructure.
  pose proof (jac_structure_count this iRow0 jCol0) as Hcount.
  rewrite <- Nat.sub_1_r in Hcount.
  remember (jac_structure this iRow0 jCol0) as c eqn:Hc. clear Hc.
  injection Hstructure as <-. cbn [jac_this jac_iRow jac_jCol].
  rewrite Hcount.
  exists (jac_coeffs
            (set_nnz_jac_g this (11 * (num_of_points_ this - 1) + 3))).
  split;
    apply (eval_jac_g_values_closed
             (set_nnz_jac_g this (11 * (num_of_points_ this - 1) + 3)));
    first [exact Hn|exact Hm|exact Hvalues1|exact Hvalues2|reflexivity].
Qed.

(** C7 on the seeded two-station problem, whose step length is [2]: at
    [x1 = (1, 2, 3, 4, 5, 6)] on a buffer of zeros and at [x2 = 0] on a
    buffer of sevens. *)
Lemma eval_jac_g_values_independent_of_x_example :
  let this' := set_nnz_jac_g two_stations_seeded 14 in
  let rows := [0; 0; 1; 1; 1; 1; 2; 2; 2; 2; 2; 3; 3; 3]%Z in
  let cols := [4; 5; 2; 3; 4; 5; 0; 1; 2; 4; 5; 0; 2; 4]%Z in
  exists vals : list R,
    eval_jac_g this' 6 [1; 2; 3; 4; 5; 6] true 6 14 rows cols
      (Some (repeat 0 14))
    = Done {| jac_this := this'; jac_iRow := rows; jac_jCol := cols;
              jac_vals := Some vals; jac_ret := true |}
    /\ eval_jac_g this' 6 [0; 0; 0; 0; 0; 0] false 6 14 rows cols
         (Some (repeat 7 14))
       = Done {| jac_this := this'; jac_iRow := rows; jac_jCol := cols;
                 jac_vals := Some vals; jac_ret := true |}.
Proof.
  exact (eval_jac_g_values_independent_of_x two_stations_seeded 6 6 14
           [0; 0; 0; 0; 0; 0] true (repeat 0%Z 14) (repeat 0%Z 14)
           {| jac_this := set_nnz_jac_g two_stations_seeded 14;
              jac_iRow := [0; 0; 1; 1; 1; 1; 2; 2; 2; 2; 2; 3; 3; 3]%Z;
              jac_jCol := [4; 5; 2; 3; 4; 5; 0; 1; 2; 4; 5; 0; 2; 4]%Z;
              jac_vals := None; jac_ret := true |}
           eq_refl
           [1; 2; 3; 4; 5; 6] [0; 0; 0; 0; 0; 0] true false
           (repeat 0 14) (repeat 7 14) eq_refl eq_refl).
Defined.

(** ** The coefficients of the closed form *)

Lemma coefficient_of_nat (rows cols : list nat) (vals : list R) (r c : nat) :
  coefficient (map Z.of_nat rows) (map Z.of_nat cols) vals
    (Z.of_nat r) (Z.of_nat c)
  = triplet_sum rows cols vals r c.
Proof.
  revert cols vals. induction rows as [|i rows IH]; intros cols vals.
  - reflexivity.
  - destruct cols as [|j cols]; [reflexivity|].
    destruct vals as [|v vals]; [reflexivity|].
    cbn [map coefficient triplet_sum]. rewrite IH. f_equal.
    destruct (Z.eqb_spec (Z.of_nat i) (Z.of_nat r)) as [Hi|Hi];
      destruct (Z.eqb_spec (Z.of_nat j) (Z.of_nat c)) as [Hj|Hj];
      cbn [andb]; case_decide as Hd; try reflexivity; lia.
Qed.

Lemma triplet_sum_app (rows1 rows2 cols1 cols2 : list nat)
    (vals1 vals2 : list R) (r c : nat) :
  length rows1 = length cols1 -> length rows1 = length vals1 ->
  triplet_sum (rows1 ++ rows2) (cols1 ++ cols2) (vals1 ++ vals2) r c
  = triplet_sum rows1 cols1 vals1 r c + triplet_sum rows2 cols2 vals2 r c.
Proof.
  revert cols1 vals1.
  induction rows1 as [|i rows1 IH]; intros cols1 vals1 Hc Hv.
  - destruct cols1; [|discriminate]. destruct vals1; [|discriminate].
    cbn. lra.
  - destruct cols1 as [|j cols1]; [discriminate|].
    destruct vals1 as [|v vals1]; [discriminate|].
    cbn [app triplet_sum]. cbn [length] in Hc, Hv. rewrite IH by lia. lra.
Qed.

(** The coefficient of a block of triplets laid out per station pair is the
    sum of the coefficients of the pairs. *)
Lemma triplet_sum_flat_map (rf cf : nat -> list nat) (vf : nat -> list R)
    (k q r c : nat) :
  (forall i, length (rf i) = k) -> (forall i, length (cf i) = k) ->
  (forall i, length (vf i) = k) ->
  triplet_sum (flat_map rf (seq 0 q)) (flat_map cf (seq 0 q))
    (flat_map vf (seq 0 q)) r c
  = sum_upto q (fun i => triplet_sum (rf i) (cf i) (vf i) r c).
Proof.
  intros Hr Hc Hv. induction q as [|q IH]; [reflexivity|].
  rewrite !flat_map_seq_last, triplet_sum_app, IH;
    rewrite ?(length_flat_map_seq _ k) by assumption; reflexivity.
Qed.

Lemma sum_upto_none (n : nat) (f : nat -> R) :
  (forall i, (i < n)%nat -> f i = 0) -> sum_upto n f = 0.
Proof.
  induction n as [|n IH]; intros Hf; simpl; [reflexivity|].
  rewrite IH, Hf by (intros; try apply Hf; lia). lra.
Qed.

Lemma sum_upto_select (n k : nat) (f : nat -> R) :
  (k < n)%nat -> (forall i, (i < n)%nat -> i <> k -> f i = 0) ->
  sum_upto n f = f k.
Proof.
  intros Hk Hf.
  rewrite (sum_upto_change_one n k (fun _ => 0) f Hk)
    by (intros i Hi Hne; apply Hf; assumption).
  rewrite sum_upto_none by reflexivity. lra.
Qed.

Section JacobianCoefficients.

Variable this : LateralTrajectoryOptimizer.

Local Abbreviation N := (num_of_points_ this).
Local Abbreviation q := (num_of_points_ this - 1)%nat.
Local Abbreviation ds := (delta_s_ this).

Ltac decide_all := repeat case_decide; try lia; try lra.

Lemma block1_sum (r c : nat) :
  sum_upto q (fun i =>
    triplet_sum [i; i] [2 * N + i; 2 * N + i + 1]%nat [1; -1] r c)
  = if decide (r < q)%nat then block1_coefficient N r c else 0.
Proof.
  case_decide as Hr.
  - rewrite (sum_upto_select q r) by
      (try exact Hr; intros i Hi Hne; cbn [triplet_sum]; decide_all).
    cbn [triplet_sum]. unfold block1_coefficient. decide_all.
  - apply sum_upto_none. intros i Hi. cbn [triplet_sum]. decide_all.
Qed.

Lemma block2_sum (r c : nat) :
  sum_upto q (fun i =>
    triplet_sum (repeat (q + i)%nat 4)
      [N + i; N + i + 1; 2 * N + i; 2 * N + i + 1]%nat
      [1; -1; 0.5 * ds; 0.5 * ds] r c)
  = if decide (q <= r < 2 * q)%nat
    then block2_coefficient N ds (r - q) c else 0.
Proof.
  case_decide as Hr.
  - rewrite (sum_upto_select q (r - q)) by
      (try lia; intros i Hi Hne; cbn [repeat triplet_sum]; decide_all).
    cbn [repeat triplet_sum]. unfold block2_coefficient. decide_all.
  - apply sum_upto_none. intros i Hi. cbn [repeat triplet_sum]. decide_all.
Qed.

Lemma block3_sum (r c : nat) :
  sum_upto q (fun i =>
    triplet_sum (repeat (2 * q + i)%nat 5)
      [i; i + 1; N + i; 2 * N + i; 2 * N + i + 1]%nat
      [1; -1; ds; ds * ds / 3; ds * ds / 6] r c)
  = if decide (2 * q <= r < 3 * q)%nat
    then block3_coefficient N ds (r - 2 * q) c else 0.
Proof.
  case_decide as Hr.
  - rewrite (sum_upto_select q (r - 2 * q)) by
      (try lia; intros i Hi Hne; cbn [repeat triplet_sum]; decide_all).
    cbn [repeat triplet_sum]. unfold block3_coefficient. decide_all.
  - apply sum_upto_none. intros i Hi. cbn [repeat triplet_sum]. decide_all.
Qed.

Lemma block4_sum (r c : nat) :
  triplet_sum (repeat (3 * q)%nat 3) [0; N; 2 * N]%nat [1; 1; 1] r c
  = if decide (r = (3 * q)%nat) then block4_coefficient N c else 0.
Proof.
  cbn [repeat triplet_sum]. unfold block4_coefficient. decide_all.
Qed.

(** The coefficient of the closed-form triplets at [(r, c)]. *)
Lemma jac_closed_coefficient (r c : nat) :
  coefficient (map Z.of_nat (jac_rows N)) (map Z.of_nat (jac_cols N))
    (jac_coeffs this) (Z.of_nat r) (Z.of_nat c)
  = jac_coefficient this r c.
Proof.
  rewrite coefficient_of_nat. unfold jac_rows, jac_cols, jac_coeffs.
  cbv zeta.
  rewrite !triplet_sum_app
    by (rewrite ?(length_flat_map_seq _ 2), ?(length_flat_map_seq _ 4),
          ?(length_flat_map_seq _ 5) by reflexivity; reflexivity).
  rewrite (triplet_sum_flat_map _ _ _ 2) by reflexivity.
  rewrite (triplet_sum_flat_map _ _ _ 4) by reflexivity.
  rewrite (triplet_sum_flat_map _ _ _ 5) by reflexivity.
  rewrite block1_sum, block2_sum, block3_sum, block4_sum.
  unfold jac_coefficient. cbv zeta. decide_all.
Qed.

End JacobianCoefficients.

(** ** The partial derivatives of the residuals *)

Lemma load_store_in (c j : nat) (t : R) (x : list R) :
  (c < length x)%nat ->
  load (store c t x) j = if decide (c = j) then t else load x j.
Proof.
  intros Hc. rewrite load_store. repeat case_decide; try reflexivity.
  - tauto.
  - lia.
Qed.

Lemma derivable_pt_lim_affine_from_zero (f : R -> R) (a x : R) :
  (forall t, f t = a * t + f 0) -> derivable_pt_lim f x a.
Proof. intros Hf. apply derivable_pt_lim_affine with (b := f 0). exact Hf. Qed.

(** Every partial derivative of every residual row; the step length
    matters on the continuity rows only. *)
Lemma eval_g_row_partial (this : LateralTrajectoryOptimizer) (n m : Z)
    (g x : list R) (r c : nat) :
  ((num_of_points_ this - 1 <= r < 3 * (num_of_points_ this - 1))%nat ->
   delta_s_ this <> 0) ->
  length g = (3 * num_of_points_ this)%nat ->
  length x = (3 * num_of_points_ this)%nat ->
  (r < 3 * num_of_points_ this)%nat -> (c < 3 * num_of_points_ this)%nat ->
  eval_g_partial this n m g x r c (residual_derivative this r c).
Proof.
  intros Hds Hg Hx Hr Hc. unfold eval_g_partial.
  apply derivable_pt_lim_affine_from_zero. intros t.
  rewrite !eval_g_rows by assumption.
  unfold residual_row, residual_derivative. cbv zeta.
  destruct (decide (num_of_points_ this - 1 <= r
                    < 3 * (num_of_points_ this - 1))%nat) as [Hin|Hout].
  - rewrite !continuity_residuals_affine by (apply Hds; exact Hin).
    cbn [fst snd]. rewrite !load_store_in by lia.
    unfold block1_coefficient, block2_coefficient, block3_coefficient.
    rewrite half_decimal.
    repeat case_decide; try lia; field.
  - rewrite !load_store_in by lia. unfold block1_coefficient.
    repeat case_decide; try lia; field.
Qed.

(** ** The two phases of the Jacobian, and the Jacobian against the
    residuals, for any number of stations *)

(** The triplets after the structure phase and then the value phase. *)
Lemma eval_jac_g_phases_inv (this : LateralTrajectoryOptimizer)
    (n m nele_jac : Z) (x : list R) (new_x : bool) (iRow0 jCol0 : list Z)
    (values : list R) (r0 r1 : jac_result) (vals : list R) :
  size_of_int n = Z.of_nat (num_of_points_ this * 3) ->
  size_of_int m = Z.of_nat (num_of_points_ this * 3) ->
  length iRow0 = jac_count (num_of_points_ this) ->
  length jCol0 = jac_count (num_of_points_ this) ->
  length values = jac_count (num_of_points_ this) ->
  eval_jac_g this n x new_x m nele_jac iRow0 jCol0 None = Done r0 ->
  eval_jac_g (jac_this r0) n x new_x m nele_jac (jac_iRow r0) (jac_jCol r0)
    (Some values) = Done r1 ->
  jac_vals r1 = Some vals ->
  jac_iRow r1 = map Z.of_nat (jac_rows (num_of_points_ this))
  /\ jac_jCol r1 = map Z.of_nat (jac_cols (num_of_points_ this))
  /\ vals = jac_coeffs this.
Proof.
  intros Hn Hm HiRow HjCol Hvalues Hstructure Hvalue Hvals.
  rewrite eval_jac_g_structure_closed in Hstructure by assumption.
  injection Hstructure as <-. cbn [jac_this jac_iRow jac_jCol] in Hvalue.
  rewrite (eval_jac_g_values_closed
             (set_nnz_jac_g this (jac_count (num_of_points_ this))))
    in Hvalue by (first [exact Hn|exact Hm|exact Hvalues|reflexivity]).
  injection Hvalue as <-. cbn [jac_vals jac_iRow jac_jCol] in *.
  injection Hvals as <-. repeat split.
Qed.

(** X11.  The two-phase protocol of [eval_jac_g] in closed form: with sizes
    [n = m = 3N] and buffers of [11(N-1) + 3] entries, the structure phase
    completes, records that count in [nnz_jac_g_] and leaves the rows and
    columns [jac_rows N] and [jac_cols N]; the value phase on the object so
    left completes and leaves the values [jac_coeffs]. *)
Theorem eval_jac_g_closed_form :
  forall (this : LateralTrajectoryOptimizer) (n m nele_jac : Z)
         (x : list R) (new_x : bool) (iRow0 jCol0 : list Z)
         (values : list R),
  let N := num_of_points_ this in
  let this' := set_nnz_jac_g this (11 * (N - 1) + 3) in
  size_of_int n = Z.of_nat (N * 3) -> size_of_int m = Z.of_nat (N * 3) ->
  length iRow0 = (11 * (N - 1) + 3)%nat ->
  length jCol0 = (11 * (N - 1) + 3)%nat ->
  length values = (11 * (N - 1) + 3)%nat ->
  eval_jac_g this n x new_x m nele_jac iRow0 jCol0 None
  = Done {| jac_this := this';
            jac_iRow := map Z.of_nat (jac_rows N);
            jac_jCol := map Z.of_nat (jac_cols N);
            jac_vals := None; jac_ret := true |}
  /\ eval_jac_g this' n x new_x m nele_jac
       (map Z.of_nat (jac_rows N)) (map Z.of_nat (jac_cols N)) (Some values)
     = Done {| jac_this := this';
               jac_iRow := map Z.of_nat (jac_rows N);
               jac_jCol := map Z.of_nat (jac_cols N);
               jac_vals := Some (jac_coeffs this); jac_ret := true |}
  /\ length (jac_rows N) = (11 * (N - 1) + 3)%nat
  /\ length (jac_cols N) = (11 * (N - 1) + 3)%nat
  /\ length (jac_coeffs this) = (11 * (N - 1) + 3)%nat.
Proof.
  intros this n m nele_jac x new_x iRow0 jCol0 values N this'
    Hn Hm HiRow HjCol Hvalues.
  subst N this'. fold (jac_count (num_of_points_ this)) in *.
  split; [apply eval_jac_g_structure_closed; assumption|].
  split.
  - apply (eval_jac_g_values_closed
             (set_nnz_jac_g this (jac_count (num_of_points_ this))));
      try assumption; reflexivity.
  - split; [apply length_jac_rows|].
    split; [apply length_jac_cols|apply length_jac_coeffs].
Qed.

(** X11 on the seeded two-station problem, whose step length is [2]. *)
Lemma eval_jac_g_closed_form_example :
  let this' := set_nnz_jac_g two_stations_seeded 14 in
  let rows := [0; 0; 1; 1; 1; 1; 2; 2; 2; 2; 2; 3; 3; 3]%Z in
  let cols := [4; 5; 2; 3; 4; 5; 0; 1; 2; 4; 5; 0; 2; 4]%Z in
  eval_jac_g two_stations_seeded 6 [] true 6 14 (repeat 0%Z 14)
    (repeat 0%Z 14) None
  = Done {| jac_this := this'; jac_iRow := rows; jac_jCol := cols;
            jac_vals := None; jac_ret := true |}
  /\ eval_jac_g this' 6 [] true 6 14 rows cols (Some (repeat 0 14))
     = Done {| jac_this := this'; jac_iRow := rows; jac_jCol := cols;
               jac_vals :=
                 Some [1; -1; 1; -1; 0.5 * 2; 0.5 * 2;
                       1; -1; 2; 2 * 2 / 3; 2 * 2 / 6; 1; 1; 1];
               jac_ret := true |}.
Proof.
  destruct (eval_jac_g_closed_form two_stations_seeded 6 6 14 [] true
              (repeat 0%Z 14) (repeat 0%Z 14) (repeat 0 14)
              eq_refl eq_refl eq_refl eq_refl eq_refl)
    as (Hstructure & Hvalue & _).
  split; [exact Hstructure|exact Hvalue].
Defined.

(** X12.  [eval_jac_g] aborts exactly when [n] or [m] is not [3N] or, in
    the value phase, when [nnz_jac_g_] is not the count that the structure
    phase records: a value-phase call is accepted only on an object whose
    [nnz_jac_g_] is [11 * pred N + 3]. *)
Theorem eval_jac_g_aborts_exactly_when :
  forall (this : LateralTrajectoryOptimizer) (n m nele_jac : Z)
         (x : list R) (new_x : bool) (iRow0 jCol0 : list Z)
         (values : option (list R)),
  eval_jac_g this n x new_x m nele_jac iRow0 jCol0 values = Fatal
  <-> (size_of_int n <> Z.of_nat (num_of_points_ this * 3)
       \/ size_of_int m <> Z.of_nat (num_of_points_ this * 3)
       \/ (values <> None
           /\ nnz_jac_g_ this
              <> (11 * Nat.pred (num_of_points_ this) + 3)%nat)).
Proof.
  intros this n m nele_jac x new_x iRow0 jCol0 values.
  rewrite eval_jac_g_checked.
  destruct (Z.eqb_spec (size_of_int n) (Z.of_nat (num_of_points_ this * 3)))
    as [Hn|Hn]; [|split; [left; exact Hn|reflexivity]].
  destruct (Z.eqb_spec (size_of_int m) (Z.of_nat (num_of_points_ this * 3)))
    as [Hm|Hm]; [|split; [right; left; exact Hm|reflexivity]].
  cbn [andb]. destruct values as [values|]; cbv zeta.
  - rewrite jac_values_count.
    destruct (Nat.eqb_spec (11 * Nat.pred (num_of_points_ this) + 3)
                (nnz_jac_g_ this)) as [Hnnz|Hnnz].
    + split; [discriminate|]. intros [H|[H|[_ H]]]; congruence.
    + split; [|reflexivity]. intros _. right. right.
      split; [discriminate|]. congruence.
  - split; [discriminate|]. intros [H|[H|[H _]]]; congruence.
Qed.

(** X12 on the two-station problem: right after construction over zero
    members, where [nnz_jac_g_] is [0], the value phase aborts. *)
Lemma eval_jac_g_aborts_exactly_when_example :
  eval_jac_g two_stations 6 [0; 0; 0; 0; 0; 0] true 6 14 (repeat 0%Z 14)
    (repeat 0%Z 14) (Some (repeat 0 14)) = Fatal.
Proof.
  apply (proj2 (eval_jac_g_aborts_exactly_when two_stations 6 6 14
                  [0; 0; 0; 0; 0; 0] true (repeat 0%Z 14) (repeat 0%Z 14)
                  (Some (repeat 0 14)))).
  right. right. split; [discriminate|]. cbn. lia.
Defined.

(** X13.  On the continuity rows the Jacobian is exact: for a step length
    other than zero, once both phases of [eval_jac_g] have run on buffers of
    [11(N-1) + 3] entries, the coefficient of the triplets at row [r] of
    blocks 2 and 3 and at any column [c] is the partial derivative with
    respect to [x[c]] of row [r] of [eval_g]. *)
Theorem eval_jac_g_exact_on_continuity_rows :
  forall (this : LateralTrajectoryOptimizer) (n m nele_jac : Z)
         (x g : list R) (new_x : bool) (iRow0 jCol0 : list Z)
         (values : list R) (r0 r1 : jac_result) (vals : list R) (r c : nat),
  let N := num_of_points_ this in
  delta_s_ this <> 0 ->
  size_of_int n = Z.of_nat (N * 3) -> size_of_int m = Z.of_nat (N * 3) ->
  length iRow0 = (11 * (N - 1) + 3)%nat ->
  length jCol0 = (11 * (N - 1) + 3)%nat ->
  length values = (11 * (N - 1) + 3)%nat ->
  length g = (3 * N)%nat -> length x = (3 * N)%nat ->
  eval_jac_g this n x new_x m nele_jac iRow0 jCol0 None = Done r0 ->
  eval_jac_g (jac_this r0) n x new_x m nele_jac (jac_iRow r0) (jac_jCol r0)
    (Some values) = Done r1 ->
  jac_vals r1 = Some vals ->
  (N - 1 <= r < 3 * (N - 1))%nat -> (c < 3 * N)%nat ->
  eval_g_partial this n m g x r c
    (coefficient (jac_iRow r1) (jac_jCol r1) vals (Z.of_nat r) (Z.of_nat c)).
Proof.
  intros this n m nele_jac x g new_x iRow0 jCol0 values r0 r1 vals r c N
    Hds Hn Hm HiRow HjCol Hvalues Hg Hx Hstructure Hvalue Hvals Hr Hc.
  subst N.
  destruct (eval_jac_g_phases_inv this n m nele_jac x new_x iRow0 jCol0
              values r0 r1 vals Hn Hm HiRow HjCol Hvalues
              Hstructure Hvalue Hvals) as (-> & -> & ->).
  rewrite jac_closed_coefficient.
  replace (jac_coefficient this r c) with (residual_derivative this r c)
    by (unfold jac_coefficient, residual_derivative; cbv zeta;
        repeat case_decide; try lia; reflexivity).
  apply eval_g_row_partial; try assumption; [intros _; exact Hds|lia].
Qed.

(** X14.  On block 1 the Jacobian has the opposite sign: once both phases
    of [eval_jac_g] have run on buffers of [11(N-1) + 3] entries, the
    coefficient at a row [r < N - 1] and at any column [c] is the negated
    partial derivative of row [r] of [eval_g]. *)
Theorem eval_jac_g_negated_on_block1 :
  forall (this : LateralTrajectoryOptimizer) (n m nele_jac : Z)
         (x g : list R) (new_x : bool) (iRow0 jCol0 : list Z)
         (values : list R) (r0 r1 : jac_result) (vals : list R) (r c : nat),
  let N := num_of_points_ this in
  size_of_int n = Z.of_nat (N * 3) -> size_of_int m = Z.of_nat (N * 3) ->
  length iRow0 = (11 * (N - 1) + 3)%nat ->
  length jCol0 = (11 * (N - 1) + 3)%nat ->
  length values = (11 * (N - 1) + 3)%nat ->
  length g = (3 * N)%nat -> length x = (3 * N)%nat ->
  eval_jac_g this n x new_x m nele_jac iRow0 jCol0 None = Done r0 ->
  eval_jac_g (jac_this r0) n x new_x m nele_jac (jac_iRow r0) (jac_jCol r0)
    (Some values) = Done r1 ->
  jac_vals r1 = Some vals ->
  (r < N - 1)%nat -> (c < 3 * N)%nat ->
  eval_g_partial this n m g x r c
    (- coefficient (jac_iRow r1) (jac_jCol r1) vals
         (Z.of_nat r) (Z.of_nat c)).
Proof.
  intros this n m nele_jac x g new_x iRow0 jCol0 values r0 r1 vals r c N
    Hn Hm HiRow HjCol Hvalues Hg Hx Hstructure Hvalue Hvals Hr Hc.
  subst N.
  destruct (eval_jac_g_phases_inv this n m nele_jac x new_x iRow0 jCol0
              values r0 r1 vals Hn Hm HiRow HjCol Hvalues
              Hstructure Hvalue Hvals) as (-> & -> & ->).
  rewrite jac_closed_coefficient.
  replace (- jac_coefficient this r c) with (residual_derivative this r c)
    by (unfold jac_coefficient, residual_derivative; cbv zeta;
        repeat case_decide; try lia; reflexivity).
  apply eval_g_row_partial; try assumption; lia.
Qed.

(** X15.  The initial-state rows of the Jacobian: with at least one
    station, once both phases of [eval_jac_g] have run, row [3(N-1)] holds
    the coefficient [1] at each of the columns [0], [N] and [2N] and zero
    elsewhere, and the rows [3(N-1) + 1] and [3(N-1) + 2] hold no
    coefficient at all, although the residuals of these two rows have the
    partial derivative [1] with respect to [x[N]] and [x[2N]]. *)
Theorem eval_jac_g_initial_state_rows :
  forall (this : LateralTrajectoryOptimizer) (n m nele_jac : Z)
         (x g : list R) (new_x : bool) (iRow0 jCol0 : list Z)
         (values : list R) (r0 r1 : jac_result) (vals : list R),
  let N := num_of_points_ this in
  (1 <= N)%nat ->
  size_of_int n = Z.of_nat (N * 3) -> size_of_int m = Z.of_nat (N * 3) ->
  length iRow0 = (11 * (N - 1) + 3)%nat ->
  length jCol0 = (11 * (N - 1) + 3)%nat ->
  length values = (11 * (N - 1) + 3)%nat ->
  length g = (3 * N)%nat -> length x = (3 * N)%nat ->
  eval_jac_g this n x new_x m nele_jac iRow0 jCol0 None = Done r0 ->
  eval_jac_g (jac_this r0) n x new_x m nele_jac (jac_iRow r0) (jac_jCol r0)
    (Some values) = Done r1 ->
  jac_vals r1 = Some vals ->
  let coeff r c :=
    coefficient (jac_iRow r1) (jac_jCol r1) vals (Z.of_nat r) (Z.of_nat c) in
  (forall c, (c < 3 * N)%nat ->
     coeff (3 * (N - 1))%nat c
     = if decide (c = 0%nat \/ c = N \/ c = (2 * N)%nat) then 1 else 0)
  /\ (forall c, (c < 3 * N)%nat ->
        coeff (3 * (N - 1) + 1)%nat c = 0
        /\ coeff (3 * (N - 1) + 2)%nat c = 0)
  /\ eval_g_partial this n m g x (3 * (N - 1) + 1) N 1
  /\ eval_g_partial this n m g x (3 * (N - 1) + 2) (2 * N) 1.
Proof.
  intros this n m nele_jac x g new_x iRow0 jCol0 values r0 r1 vals N
    HN Hn Hm HiRow HjCol Hvalues Hg Hx Hstructure Hvalue Hvals coeff.
  subst N coeff. cbv beta.
  destruct (eval_jac_g_phases_inv this n m nele_jac x new_x iRow0 jCol0
              values r0 r1 vals Hn Hm HiRow HjCol Hvalues
              Hstructure Hvalue Hvals) as (-> & -> & ->).
  split; [|split; [|split]].
  - intros c Hc. rewrite jac_closed_coefficient.
    unfold jac_coefficient, block4_coefficient. cbv zeta.
    repeat case_decide; try lia; try lra.
  - intros c Hc. rewrite !jac_closed_coefficient.
    unfold jac_coefficient. cbv zeta.
    split; repeat case_decide; try lia; reflexivity.
  - replace 1 with (residual_derivative this
                      (3 * (num_of_points_ this - 1) + 1)
                      (num_of_points_ this))
      by (unfold residual_derivative; cbv zeta;
          repeat case_decide; try lia; reflexivity).
    apply eval_g_row_partial; try assumption; lia.
  - replace 1 with (residual_derivative this
                      (3 * (num_of_points_ this - 1) + 2)
                      (2 * num_of_points_ this))
      by (unfold residual_derivative; cbv zeta;
          repeat case_decide; try lia; reflexivity).
    apply eval_g_row_partial; try assumption; lia.
Qed.

(** Both phases on the seeded two-station problem. *)
Lemma seeded_structure_phase :
  eval_jac_g two_stations_seeded 6 [1; 4; 2; 5; 3; 6] true 6 14
    (repeat 0%Z 14) (repeat 0%Z 14) None
  = Done {| jac_this := set_nnz_jac_g two_stations_seeded 14;
            jac_iRow := seeded_rows; jac_jCol := seeded_cols;
            jac_vals := None; jac_ret := true |}.
Proof. rewrite eval_jac_g_checked. reflexivity. Qed.

Lemma seeded_value_phase :
  eval_jac_g (set_nnz_jac_g two_stations_seeded 14) 6 [1; 4; 2; 5; 3; 6] true
    6 14 seeded_rows seeded_cols (Some (repeat 0 14))
  = Done {| jac_this := set_nnz_jac_g two_stations_seeded 14;
            jac_iRow := seeded_rows; jac_jCol := seeded_cols;
            jac_vals := Some seeded_vals; jac_ret := true |}.
Proof. rewrite eval_jac_g_checked. reflexivity. Qed.

(** X13 on the seeded two-station problem: the velocity row [1] and the
    column [4] of [d''_0]. *)
Lemma eval_jac_g_exact_on_continuity_rows_example :
  eval_g_partial two_stations_seeded 6 6 [0; 0; 0; 0; 0; 0]
    [1; 4; 2; 5; 3; 6] 1 4
    (coefficient seeded_rows seeded_cols seeded_vals 1 4).
Proof.
  exact (eval_jac_g_exact_on_continuity_rows two_stations_seeded 6 6 14
           [1; 4; 2; 5; 3; 6] [0; 0; 0; 0; 0; 0] true
           (repeat 0%Z 14) (repeat 0%Z 14) (repeat 0 14) _ _ seeded_vals
           1%nat 4%nat ltac:(cbn; lra) eq_refl eq_refl eq_refl eq_refl
           eq_refl eq_refl eq_refl seeded_structure_phase seeded_value_phase
           eq_refl ltac:(simpl; lia) ltac:(simpl; lia)).
Defined.

(** X14 on the seeded two-station problem: row [0] and the column [5] of
    [d''_1]. *)
Lemma eval_jac_g_negated_on_block1_example :
  eval_g_partial two_stations_seeded 6 6 [0; 0; 0; 0; 0; 0]
    [1; 4; 2; 5; 3; 6] 0 5
    (- coefficient seeded_rows seeded_cols seeded_vals 0 5).
Proof.
  exact (eval_jac_g_negated_on_block1 two_stations_seeded 6 6 14
           [1; 4; 2; 5; 3; 6] [0; 0; 0; 0; 0; 0] true
           (repeat 0%Z 14) (repeat 0%Z 14) (repeat 0 14) _ _ seeded_vals
           0%nat 5%nat eq_refl eq_refl eq_refl eq_refl
           eq_refl eq_refl eq_refl seeded_structure_phase seeded_value_phase
           eq_refl ltac:(simpl; lia) ltac:(simpl; lia)).
Defined.

(** X15 on the seeded two-station problem: row [3] at column [2], row [4]
    at column [2], and the derivative of row [4]. *)
Lemma eval_jac_g_initial_state_rows_example :
  coefficient seeded_rows seeded_cols seeded_vals 3 2 = 1
  /\ coefficient seeded_rows seeded_cols seeded_vals 4 2 = 0
  /\ eval_g_partial two_stations_seeded 6 6 [0; 0; 0; 0; 0; 0]
       [1; 4; 2; 5; 3; 6] 4 2 1.
Proof.
  destruct (eval_jac_g_initial_state_rows two_stations_seeded 6 6 14
              [1; 4; 2; 5; 3; 6] [0; 0; 0; 0; 0; 0] true
              (repeat 0%Z 14) (repeat 0%Z 14) (repeat 0 14) _ _ seeded_vals
              ltac:(simpl; lia) eq_refl eq_refl eq_refl eq_refl
              eq_refl eq_refl eq_refl seeded_structure_phase
              seeded_value_phase eq_refl)
    as (Hrow3 & Hrows45 & Hder4 & _).
  split; [exact (Hrow3 2%nat ltac:(simpl; lia))|].
  split; [exact (proj1 (Hrows45 2%nat ltac:(simpl; lia)))|exact Hder4].
Defined.

(** ** Finalization, for any number of stations *)

(** X16.  [finalize_solution] changes the result trajectory only: it
    appends [N - 1] copies of the one segment computed from [x[2N]] and
    [x[2N - 1]], and with fewer than two stations it changes nothing.  It
    never clears the trajectory: a second call appends its segments after
    those of the first. *)
Theorem finalize_solution_accumulates :
  forall (this : LateralTrajectoryOptimizer) (status1 status2 : SolverReturn)
         (n m : Z) (x1 x2 z_L z_U g lambda : list R) (obj_value : R),
  let N := num_of_points_ this in
  let this1 :=
    finalize_solution this status1 n x1 z_L z_U m g lambda obj_value in
  let this2 :=
    finalize_solution this1 status2 n x2 z_L z_U m g lambda obj_value in
  this1 = set_opt_piecewise_trajectory (GetOptimalTrajectory this1) this
  /\ segments (GetOptimalTrajectory this1)
     = segments (GetOptimalTrajectory this)
       ++ repeat (finalize_code_segment this x1) (N - 1)
  /\ segments (GetOptimalTrajectory this2)
     = segments (GetOptimalTrajectory this)
       ++ repeat (finalize_code_segment this x1) (N - 1)
       ++ repeat (finalize_code_segment this x2) (N - 1)
  /\ ((N <= 1)%nat -> this1 = this).
Proof.
  intros this status1 status2 n m x1 x2 z_L z_U g lambda obj_value
    N this1 this2.
  subst N this1 this2. rewrite !finalize_solution_appends.
  unfold GetOptimalTrajectory.
  cbn [set_opt_piecewise_trajectory opt_piecewise_trajectory_ segments
       initial_state num_of_points_].
  split; [reflexivity|]. split; [reflexivity|].
  split; [rewrite <- app_assoc; reflexivity|].
  intros Hfew.
  replace (num_of_points_ this - 1)%nat with 0%nat by lia.
  cbn [repeat]. rewrite app_nil_r.
  destruct this as [? ? ? ? ? ? ? ? ? ? ? ? ? []]. reflexivity.
Qed.

(** X16 on one station: nothing is appended. *)
Lemma finalize_solution_accumulates_example :
  finalize_solution (init_members zero_object 0 0 0 1 [(-1, 1)])
    SUCCESS 3 [1; 2; 3] [] [] 3 [] [] 0
  = init_members zero_object 0 0 0 1 [(-1, 1)].
Proof.
  apply (proj2 (proj2 (proj2
    (finalize_solution_accumulates
       (init_members zero_object 0 0 0 1 [(-1, 1)]) SUCCESS SUCCESS 3 3
       [1; 2; 3] [1; 2; 3] [] [] [] [] 0)))).
  simpl. lia.
Defined.

(** X17.  From construction to the result: the trajectory that
    [GetOptimalTrajectory] returns after the constructor and one
    [finalize_solution] starts at the initial state given to the constructor
    and holds one segment per adjacent pair of corridor entries, each with
    the step length given to the constructor. *)
Theorem constructed_trajectory_after_finalize :
  forall (raw : LateralTrajectoryOptimizer)
         (d_init d_prime_init d_pprime_init delta_s : R)
         (d_bounds : list (R * R)) (status : SolverReturn) (n m : Z)
         (x z_L z_U g lambda : list R) (obj_value : R),
  let this :=
    init_members raw d_init d_prime_init d_pprime_init delta_s d_bounds in
  let t := GetOptimalTrajectory
             (finalize_solution this status n x z_L z_U m g lambda
                obj_value) in
  segments (GetOptimalTrajectory this) = []
  /\ initial_state t = (d_init, d_prime_init, d_pprime_init)
  /\ length (segments t) = (length d_bounds - 1)%nat
  /\ Forall (fun seg => snd seg = delta_s) (segments t).
Proof.
  intros raw d_init d_prime_init d_pprime_init delta_s d_bounds status n m
    x z_L z_U g lambda obj_value this t.
  subst t. rewrite finalize_solution_appends. subst this.
  unfold GetOptimalTrajectory. cbn. rewrite repeat_length.
  repeat split.
  induction (length d_bounds - 1)%nat as [|k IH]; cbn [repeat];
    constructor; [reflexivity|exact IH].
Qed.
